(** * Selfserve portal: the HTML compilation pass and the shutdown hook

    A shallow embedding of [server/app/__init__.py]: the sub-resource
    integrity hasher [file_to_sri], the before-serving hook [compile_html]
    and the after-serving hook [shutdown], together with the pieces of the
    Python runtime they call ([re.finditer] for the one pattern used,
    [str.replace], [str.lstrip], [os.path.join], SHA-384, base64 and a
    small file store). *)

From Stdlib Require Import ZArith Ascii String List Lia.
From stdpp Require Import gmap strings list fin_maps.

Local Open Scope Z_scope.

(** Python [str] and [bytes] values are modelled as lists of characters;
    [txt] turns a string literal into such a list. *)
Abbreviation text := (list ascii).

Definition txt (s : string) : text := list_ascii_of_string s.

(** The double quote character. *)
Definition dq : ascii := "034"%char.

(** The line feed, the one character the regular expression dot refuses. *)
Definition nl : ascii := "010"%char.

(** The carriage return. *)
Definition cr : ascii := "013"%char.

(** ** SHA-384 (FIPS 180-4), what [hashlib.sha384] computes *)
Module Sha384.

Definition w64 (x : Z) : Z := x mod 2 ^ 64.

Definition add64 (x y : Z) : Z := w64 (x + y).

Definition rotr (n x : Z) : Z :=
  Z.lor (Z.shiftr x n) (w64 (Z.shiftl x (64 - n))).

Definition Ch (x y z : Z) : Z :=
  Z.lxor (Z.land x y) (Z.land (Z.lxor x (Z.ones 64)) z).

Definition Maj (x y z : Z) : Z :=
  Z.lxor (Z.lxor (Z.land x y) (Z.land x z)) (Z.land y z).

Definition Sigma0 (x : Z) : Z := Z.lxor (Z.lxor (rotr 28 x) (rotr 34 x)) (rotr 39 x).
Definition Sigma1 (x : Z) : Z := Z.lxor (Z.lxor (rotr 14 x) (rotr 18 x)) (rotr 41 x).
Definition sigma0 (x : Z) : Z := Z.lxor (Z.lxor (rotr 1 x) (rotr 8 x)) (Z.shiftr x 7).
Definition sigma1 (x : Z) : Z := Z.lxor (Z.lxor (rotr 19 x) (rotr 61 x)) (Z.shiftr x 6).

Definition K : list Z :=
    [0x428a2f98d728ae22; 0x7137449123ef65cd; 0xb5c0fbcfec4d3b2f; 0xe9b5dba58189dbbc;
     0x3956c25bf348b538; 0x59f111f1b605d019; 0x923f82a4af194f9b; 0xab1c5ed5da6d8118;
     0xd807aa98a3030242; 0x12835b0145706fbe; 0x243185be4ee4b28c; 0x550c7dc3d5ffb4e2;
     0x72be5d74f27b896f; 0x80deb1fe3b1696b1; 0x9bdc06a725c71235; 0xc19bf174cf692694;
     0xe49b69c19ef14ad2; 0xefbe4786384f25e3; 0x0fc19dc68b8cd5b5; 0x240ca1cc77ac9c65;
     0x2de92c6f592b0275; 0x4a7484aa6ea6e483; 0x5cb0a9dcbd41fbd4; 0x76f988da831153b5;
     0x983e5152ee66dfab; 0xa831c66d2db43210; 0xb00327c898fb213f; 0xbf597fc7beef0ee4;
     0xc6e00bf33da88fc2; 0xd5a79147930aa725; 0x06ca6351e003826f; 0x142929670a0e6e70;
     0x27b70a8546d22ffc; 0x2e1b21385c26c926; 0x4d2c6dfc5ac42aed; 0x53380d139d95b3df;
     0x650a73548baf63de; 0x766a0abb3c77b2a8; 0x81c2c92e47edaee6; 0x92722c851482353b;
     0xa2bfe8a14cf10364; 0xa81a664bbc423001; 0xc24b8b70d0f89791; 0xc76c51a30654be30;
     0xd192e819d6ef5218; 0xd69906245565a910; 0xf40e35855771202a; 0x106aa07032bbd1b8;
     0x19a4c116b8d2d0c8; 0x1e376c085141ab53; 0x2748774cdf8eeb99; 0x34b0bcb5e19b48a8;
     0x391c0cb3c5c95a63; 0x4ed8aa4ae3418acb; 0x5b9cca4f7763e373; 0x682e6ff3d6b2b8a3;
     0x748f82ee5defb2fc; 0x78a5636f43172f60; 0x84c87814a1f0ab72; 0x8cc702081a6439ec;
     0x90befffa23631e28; 0xa4506cebde82bde9; 0xbef9a3f7b2c67915; 0xc67178f2e372532b;
     0xca273eceea26619c; 0xd186b8c721c0c207; 0xeada7dd6cde0eb1e; 0xf57d4f7fee6ed178;
     0x06f067aa72176fba; 0x0a637dc5a2c898a6; 0x113f9804bef90dae; 0x1b710b35131c471b;
     0x28db77f523047d84; 0x32caab7b40c72493; 0x3c9ebe0a15c9bebc; 0x431d67c49c100d4c;
     0x4cc5d4becb3e42b6; 0x597f299cfc657e2a; 0x5fcb6fab3ad6faec; 0x6c44198c4a475817].

(** The eight working variables, and the chaining value. *)
Record state := State { sa : Z; sb : Z; sc : Z; sd : Z; se : Z; sf : Z; sg : Z; sh : Z }.

Definition H0 : state :=
  State 0xcbbb9d5dc1059ed8 0x629a292a367cd507 0x9159015a3070dd17 0x152fecd8f70e5939
        0x67332667ffc00b31 0x8eb44a8768581511 0xdb0c2e0d64f98fa7 0x47b5481dbefa4fa4.

(** Big-endian bytes of a non-negative number, most significant first. *)
Fixpoint be_bytes (n : nat) (x : Z) : list Z :=
  match n with
  | O => []
  | S k => Z.land (Z.shiftr x (8 * Z.of_nat k)) 255 :: be_bytes k x
  end.

Definition be_word (bs : list Z) : Z :=
  fold_left (fun acc b => Z.lor (Z.shiftl acc 8) b) bs 0.

(** Padding: a 1 bit, zeros up to 112 modulo 128 bytes, the bit length on
    128 bits. *)
Definition pad (msg : list Z) : list Z :=
  let len := Z.of_nat (length msg) in
  let zeros := Z.to_nat ((111 - len) mod 128) in
  msg ++ 128 :: repeat 0 zeros ++ be_bytes 16 (8 * len).

Fixpoint words (n : nat) (bs : list Z) : list Z :=
  match n with
  | O => []
  | S k => be_word (firstn 8 bs) :: words k (skipn 8 bs)
  end.

Fixpoint blocks (n : nat) (bs : list Z) : list (list Z) :=
  match n with
  | O => []
  | S k => words 16 (firstn 128 bs) :: blocks k (skipn 128 bs)
  end.

(** The message schedule, kept newest word first while it is built. *)
Fixpoint extend (n : nat) (rev_w : list Z) : list Z :=
  match n with
  | O => rev_w
  | S k =>
      let w := add64 (add64 (sigma1 (nth 1 rev_w 0)) (nth 6 rev_w 0))
                     (add64 (sigma0 (nth 14 rev_w 0)) (nth 15 rev_w 0)) in
      extend k (w :: rev_w)
  end.

Definition schedule (block : list Z) : list Z := rev (extend 64 (rev block)).

Definition round (s : state) (kw : Z * Z) : state :=
  let '(k, w) := kw in
  let t1 := add64 (add64 (add64 (sh s) (Sigma1 (se s))) (Ch (se s) (sf s) (sg s)))
                  (add64 k w) in
  let t2 := add64 (Sigma0 (sa s)) (Maj (sa s) (sb s) (sc s)) in
  State (add64 t1 t2) (sa s) (sb s) (sc s) (add64 (sd s) t1) (se s) (sf s) (sg s).

Definition compress (h : state) (block : list Z) : state :=
  let s := fold_left round (combine K (schedule block)) h in
  State (add64 (sa h) (sa s)) (add64 (sb h) (sb s)) (add64 (sc h) (sc s))
        (add64 (sd h) (sd s)) (add64 (se h) (se s)) (add64 (sf h) (sf s))
        (add64 (sg h) (sg s)) (add64 (sh h) (sh s)).

(** The digest: the first six words of the final chaining value. *)
Definition digest_of (s : state) : list Z :=
  be_bytes 8 (sa s) ++ be_bytes 8 (sb s) ++ be_bytes 8 (sc s) ++
  be_bytes 8 (sd s) ++ be_bytes 8 (se s) ++ be_bytes 8 (sf s).

Definition sha384_bytes (msg : list Z) : list Z :=
  let p := pad msg in
  digest_of (fold_left compress (blocks (length p / 128)%nat p) H0).

Definition byte_of (c : ascii) : Z := Z.of_N (N_of_ascii c).

Definition sha384 (data : text) : list Z := sha384_bytes (map byte_of data).

End Sha384.

(** ** Base64, what [base64.b64encode] followed by the ASCII decoding gives *)
Module Base64.

Definition alphabet : text :=
  txt "ABCDEFGHIJKLMNOPQRSTUVWXYZabcdefghijklmnopqrstuvwxyz0123456789+/".

Definition sextet (n : Z) : ascii := nth (Z.to_nat (Z.land n 63)) alphabet "="%char.

Fixpoint b64encode (bs : list Z) : text :=
  match bs with
  | a :: b :: c :: rest =>
      sextet (Z.shiftr a 2)
      :: sextet (Z.lor (Z.shiftl (Z.land a 3) 4) (Z.shiftr b 4))
      :: sextet (Z.lor (Z.shiftl (Z.land b 15) 2) (Z.shiftr c 6))
      :: sextet c :: b64encode rest
  | [a; b] =>
      [sextet (Z.shiftr a 2);
       sextet (Z.lor (Z.shiftl (Z.land a 3) 4) (Z.shiftr b 4));
       sextet (Z.shiftl (Z.land b 15) 2); "="%char]
  | [a] =>
      [sextet (Z.shiftr a 2); sextet (Z.shiftl (Z.land a 3) 4); "="%char; "="%char]
  | [] => []
  end.

End Base64.

(** The token built from a file's bytes: the literal sha384- followed by
    the base64 text of the digest. *)
Definition sri_of_bytes (data : text) : text :=
  txt "sha384-" ++ Base64.b64encode (Sha384.sha384 data).


(** ** The string operations the hook uses *)
Module Str.

(** [s.startswith(p)] *)
Fixpoint starts_with (p s : text) : bool :=
  match p, s with
  | [], _ => true
  | a :: p', b :: s' => if Ascii.eqb a b then starts_with p' s' else false
  | _ :: _, [] => false
  end.

(** [s.endswith(p)] *)
Definition ends_with (p s : text) : bool := starts_with (rev p) (rev s).

(** [s.lstrip(c)] for a one-character argument. *)
Fixpoint lstrip (c : ascii) (s : text) : text :=
  match s with
  | a :: s' => if Ascii.eqb a c then lstrip c s' else s
  | [] => []
  end.

(** [s.rstrip(c)] for a one-character argument. *)
Definition rstrip (c : ascii) (s : text) : text := rev (lstrip c (rev s)).

(** The scan of [str.replace] for a non-empty [old]: occurrences are found
    left to right and do not overlap; [skip] counts the characters of the
    occurrence just replaced that are still to be passed over. *)
Fixpoint replace_from (old new : text) (skip : nat) (s : text) : text :=
  match s with
  | [] => []
  | c :: s' =>
      match skip with
      | S k => replace_from old new k s'
      | O =>
          if starts_with old s
          then new ++ replace_from old new (length old - 1) s'
          else c :: replace_from old new 0 s'
      end
  end.

(** [s.replace(old, new)]; with an empty [old] Python inserts [new] before
    every character and at the end. *)
Definition replace (old new s : text) : text :=
  match old with
  | [] => new ++ flat_map (fun c => c :: new) s
  | _ :: _ => replace_from old new 0 s
  end.

(** No occurrence of [old] starts inside [u], when [z] follows. *)
Definition clear_of (old u z : text) : Prop :=
  forall i, (i < length u)%nat -> starts_with old (drop i u ++ z) = false.

End Str.

(** ** The regular expression of the hook

    The pattern is an opening group, the literal src= and a double quote,
    a second group holding a lazy run of one or more characters followed by
    the literal .js, and a closing double quote. *)
Module Re.

(** The literal parts of the pattern. *)
Definition src_open : text := txt "src=" ++ [dq].
Definition js_close : text := txt ".js" ++ [dq].

(** The lazy [.+?] after its first character: the characters it still
    takes before the literal .js and the closing quote match; the dot
    refuses the line feed. *)
Fixpoint lazy_rest (s : text) {struct s} : option text :=
  if Str.starts_with js_close s then Some []
  else match s with
       | [] => None
       | c :: s' =>
           if Ascii.eqb c nl then None
           else match lazy_rest s' with
                | Some b => Some (c :: b)
                | None => None
                end
       end.

(** A match anchored at the start of [s]: groups 1 and 2. *)
Definition match_at (s : text) : option (text * text) :=
  if Str.starts_with src_open s then
    match skipn 5 s with
    | c :: r =>
        if Ascii.eqb c nl then None
        else match lazy_rest r with
             | Some b =>
                 let g2 := c :: b ++ txt ".js" in
                 Some (src_open ++ g2 ++ [dq], g2)
             | None => None
             end
    | [] => None
    end
  else None.

(** [re.finditer]: the non-overlapping matches, leftmost first. *)
Fixpoint finditer_from (skip : nat) (s : text) : list (text * text) :=
  match s with
  | [] => []
  | _ :: s' =>
      match skip with
      | S k => finditer_from k s'
      | O =>
          match match_at s with
          | Some m => m :: finditer_from (length (fst m) - 1) s'
          | None => finditer_from 0 s'
          end
      end
  end.

Definition finditer (s : text) : list (text * text) := finditer_from 0 s.

(** A reference text as the pattern sees it: the opening, a body of at
    least one character and without line feed, the closing. *)
Definition ref_text (body : text) : text := src_open ++ body ++ js_close.







(** A reference text whose body, the path without its extension, has
    neither line feed nor double quote. *)
Definition is_ref (g : text) : Prop :=
  exists body, g = ref_text body /\ body <> [] /\ (nl ∉ body) /\ (dq ∉ body).



End Re.

(** ** [os.path] *)
Module Path.

Definition sep : ascii := "/"%char.

(** [os.path.join(a, b)] *)
Definition join (a b : text) : text :=
  if Str.starts_with [sep] b then b
  else if bool_decide (a = []) || Str.ends_with [sep] a then a ++ b
  else a ++ sep :: b.

(** The part of [p] after its last separator, and the part up to and
    including it (kept reversed while it is computed). *)
Fixpoint rsplit_rev (r : text) : text * text :=
  match r with
  | [] => ([], [])
  | c :: r' =>
      if Ascii.eqb c sep then (r, [])
      else let '(h, t) := rsplit_rev r' in (h, c :: t)
  end.

(** [os.path.split(p)] *)
Definition split (p : text) : text * text :=
  let '(h, t) := rsplit_rev (rev p) in
  let head := rev h in
  let tail := rev t in
  if bool_decide (Str.lstrip sep head = []) then (head, tail)
  else (Str.rstrip sep head, tail).

(** A path that ends in a character other than the separator. *)
Definition open_ended (d : text) : Prop := exists d' c, d = d' ++ [c] /\ c <> sep.

End Path.

(** ** The file store and the effects of the hook *)

(** The exceptions the calls of the hook can raise; all are subclasses of
    Python's [OSError]. *)
Inductive exn :=
  | FileNotFoundError
  | PermissionError
  | IsADirectoryError
  | NotADirectoryError
  | FileExistsError.


(** A path names a regular file, with its permission bits and bytes, or a
    directory, with its permission bits. Paths are compared as written. *)
Inductive node :=
  | File (mode : Z) (data : text)
  | Dir (mode : Z).

(** What the hook does to the outside, in the order it does it. *)
Inductive event :=
  | Log (msg : text)
  | PrintLine (msg : text)
  | Mkdir (path : text) (mode : Z)
  | WriteFile (path : text) (data : text).

Record world := World { nodes : gmap text node; trace : list event }.

(** Permission bits are written in octal in the source. *)
Definition octal (a b c : Z) : Z := a * 64 + b * 8 + c.

(** Owner permission bits. A node that is created carries the bits asked
    for: the umask of the process is not part of the model. *)
Definition can_read (mode : Z) : bool := Z.testbit mode 8.
Definition can_write (mode : Z) : bool := Z.testbit mode 7.
Definition can_search (mode : Z) : bool := Z.testbit mode 6.

(** A computation that may raise and that changes the world. *)
Definition M (A : Type) : Type := world -> (exn + A) * world.

Definition ret {A} (a : A) : M A := fun w => (inr a, w).

Definition raise {A} (e : exn) : M A := fun w => (inl e, w).

Definition bind {A B} (c : M A) (k : A -> M B) : M B :=
  fun w =>
    match c w with
    | (inr a, w') => k a w'
    | (inl e, w') => (inl e, w')
    end.

Notation "'do' x <- c ;; k" := (bind c (fun x => k))
  (at level 10, x name, c at level 99, k at level 200).
Notation "'run' c ;; k" := (bind c (fun _ => k))
  (at level 10, c at level 99, k at level 200).

(** A [for] loop that threads a value through its iterations. *)
Fixpoint for_fold {A B} (l : list A) (body : B -> A -> M B) (b : B) : M B :=
  match l with
  | [] => ret b
  | a :: l' => do b' <- body b a ;; for_fold l' body b'
  end.

(** A [for] loop run for its effects. *)
Fixpoint for_each {A} (l : list A) (body : A -> M unit) : M unit :=
  match l with
  | [] => ret tt
  | a :: l' => run body a ;; for_each l' body
  end.

Definition emit (e : event) : M unit :=
  fun w => (inr tt, World (nodes w) (trace w ++ [e])).

Module Os.

(** [os.path.isfile] and [os.path.isdir] *)
Definition isfile (p : text) : M bool :=
  fun w => (inr match nodes w !! p with Some (File _ _) => true | _ => false end, w).

Definition isdir (p : text) : M bool :=
  fun w => (inr match nodes w !! p with Some (Dir _) => true | _ => false end, w).

Definition exists_ (p : text) : M bool :=
  fun w => (inr match nodes w !! p with Some _ => true | None => false end, w).

(** [open(p, mode rb).read()]: the bytes of the file. *)
Definition read_bytes (p : text) : M text :=
  fun w =>
    match nodes w !! p with
    | Some (File m d) => if can_read m then (inr d, w) else (inl PermissionError, w)
    | Some (Dir _) => (inl IsADirectoryError, w)
    | None => (inl FileNotFoundError, w)
    end.

(** Text mode reads with universal newlines: a carriage return, alone or
    followed by a line feed, comes back as one line feed. [after_cr] tells
    that the previous character was a carriage return. *)
Fixpoint universal_newlines (after_cr : bool) (s : text) : text :=
  match s with
  | [] => []
  | c :: s' =>
      if Ascii.eqb c cr then nl :: universal_newlines true s'
      else if Ascii.eqb c nl then
        if after_cr then universal_newlines false s'
        else nl :: universal_newlines false s'
      else c :: universal_newlines false s'
  end.

(** [open(p).read()]: the decoding of the bytes to characters is taken as
    the identity, as the encoding is on the way back in [write_file]. *)
Definition read_file (p : text) : M text :=
  do data <- read_bytes p ;;
  ret (universal_newlines false data).

(** What creating an entry under the directory of [p] needs. *)
Definition check_parent (p : text) : M unit :=
  fun w =>
    match nodes w !! fst (Path.split p) with
    | Some (Dir m) =>
        if can_write m && can_search m then (inr tt, w) else (inl PermissionError, w)
    | Some (File _ _) => (inl NotADirectoryError, w)
    | None => (inl FileNotFoundError, w)
    end.

(** [open(p, mode w).write(data)]: an existing file is truncated and keeps
    its permission bits, a new one is created in its directory. *)
Definition write_file (p data : text) : M unit :=
  fun w =>
    match nodes w !! p with
    | Some (File m _) =>
        if can_write m
        then (inr tt, World (<[p := File m data]> (nodes w))
                            (trace w ++ [WriteFile p data]))
        else (inl PermissionError, w)
    | Some (Dir _) => (inl IsADirectoryError, w)
    | None =>
        match check_parent p w with
        | (inr _, _) =>
            (inr tt, World (<[p := File (octal 6 6 6) data]> (nodes w))
                           (trace w ++ [WriteFile p data]))
        | (inl e, _) => (inl e, w)
        end
    end.

(** [os.mkdir(p, mode)] *)
Definition mkdir (p : text) (mode : Z) : M unit :=
  fun w =>
    match nodes w !! p with
    | Some _ => (inl FileExistsError, w)
    | None =>
        match check_parent p w with
        | (inr _, _) =>
            (inr tt, World (<[p := Dir mode]> (nodes w)) (trace w ++ [Mkdir p mode]))
        | (inl e, _) => (inl e, w)
        end
    end.

(** The last step of [os.makedirs(name, mode, exist_ok=True)]: the
    directory is made; a failure is let through unless the directory is
    there. *)
Definition makedirs_leaf (name : text) (mode : Z) : M unit :=
  fun w =>
    match mkdir name mode w with
    | (inl e, w') =>
        match nodes w' !! name with
        | Some (Dir _) => (inr tt, w')
        | _ => (inl e, w')
        end
    | ok => ok
    end.

(** [os.makedirs(name, mode, exist_ok=True)]: missing ancestors are made
    first, with the default mode; [fuel] bounds the climb. *)
Fixpoint makedirs_fuel (fuel : nat) (name : text) (mode : Z) : M unit :=
  let '(head, tail) := Path.split name in
  let '(head, tail) := if bool_decide (tail = []) then Path.split head else (head, tail) in
  do head_exists <- exists_ head ;;
  if bool_decide (head <> []) && bool_decide (tail <> []) && negb head_exists then
    match fuel with
    | O => makedirs_leaf name mode
    | S fuel' =>
        run (fun w =>
               match makedirs_fuel fuel' head (octal 7 7 7) w with
               | (inl FileExistsError, w') => (inr tt, w')
               | r => r
               end) ;;
        if bool_decide (tail = txt ".") then ret tt else makedirs_leaf name mode
    end
  else makedirs_leaf name mode.

Definition makedirs (name : text) (mode : Z) : M unit :=
  makedirs_fuel (length name) name mode.

(** [os.listdir(p)]: the names directly under [p], in the order of the
    store. *)
Definition child_name (p k : text) : option text :=
  let n := snd (Path.split k) in
  if bool_decide (n <> [] /\ Path.join p n = k) then Some n else None.

Definition listdir (p : text) : M (list text) :=
  fun w =>
    match nodes w !! p with
    | Some (Dir m) =>
        if can_read m
        then (inr (omap (fun kv => child_name p (fst kv)) (map_to_list (nodes w))), w)
        else (inl PermissionError, w)
    | Some (File _ _) => (inl NotADirectoryError, w)
    | None => (inl FileNotFoundError, w)
    end.

(** What a run of [makedirs] may change between two worlds: directories
    are added at paths and with modes that [allowed] admits, nothing else
    moves, and the events are the creations. *)
Definition is_mkdir (e : event) : Prop :=
  match e with Mkdir _ _ => True | _ => False end.

Definition dirs_added (allowed : text -> Z -> Prop) (w w' : world) : Prop :=
  exists evs,
    trace w' = trace w ++ evs /\ Forall is_mkdir evs /\
    forall k,
      nodes w' !! k = nodes w !! k \/
      (nodes w !! k = None /\
       exists m, allowed k m /\ nodes w' !! k = Some (Dir m) /\ Mkdir k m ∈ evs).

(** The creations [makedirs name mode] may make: the leaf with the mode
    asked for, and ancestors, whose paths are proper prefixes. *)
Definition makes (name : text) (mode : Z) (k : text) (m : Z) : Prop :=
  (k = name /\ m = mode) \/ (k `prefix_of` name /\ (length k < length name)%nat).

(** Two worlds hold the same regular file, or none, at [p]. *)
Definition same_file (w1 w2 : world) (p : text) : Prop :=
  forall m d, nodes w1 !! p = Some (File m d) <-> nodes w2 !! p = Some (File m d).

End Os.

(** ** The hooks of [server/app/__init__.py] *)
Section Portal.

(** The value of [os.path.realpath("..")] when the module is loaded. *)
Variable root : text.

Definition STATIC_DIR : text := Path.join root (txt "htdocs").
Definition TEMPLATES_DIR : text := Path.join STATIC_DIR (txt "templates").
Definition COMPILED_DIR : text := Path.join STATIC_DIR (txt "compiled").

(** Generates a sub-resource integrity value for a file. *)
Definition file_to_sri (filepath : text) : M text :=
  do data <- Os.read_bytes filepath ;;
  ret (sri_of_bytes data).

(** Static files (or index.html if requesting a dir listing): the route
    handler, up to its call of [quart.send_from_directory], of which it
    returns the result; the value is the directory and the file name that
    the call is given. [None] is the route without a path, for which the
    parameter takes its default. *)
Definition static_files (path : option text) : text * text :=
  let path := default (txt "index.html") path in
  let path := if Str.ends_with (txt "/") path then path ++ txt "index.html" else path in
  if Str.ends_with (txt ".html") path then (COMPILED_DIR, path)
  else (STATIC_DIR, path).

(** The text appended after a script reference. *)
Definition integrity_attr (sri : text) : text :=
  txt " integrity=" ++ [dq] ++ sri ++ [dq].

(** The body of the loop over the matches of the pattern: [script_src]
    holds groups 1 and 2 of one match. *)
Definition stamp_script (master_template : text) (script_src : text * text) : M text :=
  let script_name := Str.lstrip Path.sep (snd script_src) in
  let script_path := Path.join STATIC_DIR script_name in
  do found <- Os.isfile script_path ;;
  if found then
    do sri <- file_to_sri script_path ;;
    let orig_src := fst script_src in
    let new_src := orig_src ++ integrity_attr sri in
    ret (Str.replace orig_src new_src master_template)
  else ret master_template.

(** The line printed for a fragment file. *)
Definition announce (htmlfile : text) : event :=
  PrintLine (txt "Compiling " ++ htmlfile ++ txt " into output/" ++ htmlfile).

(** The body of the loop over the fragment files. *)
Definition compile_page (master_template htmlfile : text) : M unit :=
  run emit (announce htmlfile) ;;
  do htmldata <- Os.read_file (Path.join STATIC_DIR htmlfile) ;;
  let output := Str.replace (txt "{contents}") htmldata master_template in
  Os.write_file (Path.join COMPILED_DIR htmlfile) output.

(** What the pass writes for a fragment file holding the bytes [data]. *)
Definition page_output (master_template data : text) : text :=
  Str.replace (txt "{contents}") (Os.universal_newlines false data) master_template.

(** The events of the loop over the fragments. *)
Definition is_page_event (e : event) : Prop :=
  match e with PrintLine _ | WriteFile _ _ => True | _ => False end.

(** The loop that adds sub-resource integrity to all scripts. The matches
    are those of the template as read; the replacements accumulate in the
    rebound variable. *)
Definition stamp_scripts (master_template : text) : M text :=
  for_fold (Re.finditer master_template) stamp_script master_template.

(** The line logged before the output directory is created. *)
Definition missing_dir_notice : event :=
  Log (txt "Compiled HTML directory " ++ COMPILED_DIR
       ++ txt " does not exist, will attempt to create it").

(** The creation of the output directory when it is not there. *)
Definition ensure_compiled_dir : M unit :=
  do is_dir <- Os.isdir COMPILED_DIR ;;
  if negb is_dir then
    run emit missing_dir_notice ;;
    Os.makedirs COMPILED_DIR (octal 7 0 0)
  else ret tt.

(** The loop over the fragment files of the static root. *)
Definition compile_pages (master_template : text) : M unit :=
  do names <- Os.listdir STATIC_DIR ;;
  for_each (List.filter (fun filename => Str.ends_with (txt ".html") filename) names)
           (compile_page master_template).

(** Compiles HTML files in htdocs/ using a master template. *)
Definition compile_html : M unit :=
  do master_template <- Os.read_file (Path.join TEMPLATES_DIR (txt "master.html")) ;;
  do master_template <- stamp_scripts master_template ;;
  run ensure_compiled_dir ;;
  compile_pages master_template.

(** The path under which the script of a match is looked for. *)
Definition script_path (script_src : text * text) : text :=
  Path.join STATIC_DIR (Str.lstrip Path.sep (snd script_src)).



(** Every script file that the matches of [template] name can be read. *)
Definition scripts_readable (w : world) (template : text) : Prop :=
  forall m mode d, m ∈ Re.finditer template ->
    nodes w !! script_path m = Some (File mode d) -> can_read mode = true.



(** A world in which the pass has what it needs: a template and scripts
    that can be read, a static root that can be listed, an output directory
    that is there and can be written into, or is not there while the static
    root lets it be created, and fragments that can be read and whose
    compiled files, if any, can be written. *)
Definition ready (w : world) : Prop :=
  (exists m d, nodes w !! Path.join TEMPLATES_DIR (txt "master.html") = Some (File m d) /\
               can_read m = true /\
               scripts_readable w (Os.universal_newlines false d)) /\
  (exists m, nodes w !! STATIC_DIR = Some (Dir m) /\ can_read m = true /\
             ((exists cm, nodes w !! COMPILED_DIR = Some (Dir cm) /\
                          can_write cm = true /\ can_search cm = true) \/
              (nodes w !! COMPILED_DIR = None /\
               can_write m = true /\ can_search m = true))) /\
  (forall f n, f <> [] -> Path.sep ∉ f -> Str.ends_with (txt ".html") f = true ->
     nodes w !! (STATIC_DIR ++ Path.sep :: f) = Some n ->
     (exists m d, n = File m d /\ can_read m = true) /\
     (nodes w !! (COMPILED_DIR ++ Path.sep :: f) = None \/
      exists m d, nodes w !! (COMPILED_DIR ++ Path.sep :: f) = Some (File m d) /\
                  can_write m = true)).

End Portal.

(** ** The background tasks and the shutdown hook *)
Module Tasks.

(** A task of the event loop: the coroutine it runs and whether its
    cancellation was requested. *)
Record task := Task { handler : string; cancelled : bool }.

(** The application object as the hooks see it: the tasks the event loop
    holds, by creation order; the set [app.background_tasks] of references
    to them, as indices in that order; the lines logged. *)
Record app := App {
  loop_tasks : list task;
  background_tasks : gset nat;
  logged : list text
}.

Definition new_app : app := App [] ∅ [].

(** [app.add_background_task(func)]: the coroutine is handed to the event
    loop as a task and a reference to the task is added to the set. *)
Definition add_background_task (func : string) (a : app) : app :=
  App (loop_tasks a ++ [Task func false])
      ({[ length (loop_tasks a) ]} ∪ background_tasks a)
      (logged a).

(** [task.cancel()] on the task with index [i]. *)
Definition cancel (i : nat) (a : app) : app :=
  App (alter (fun t => Task (handler t) true) i (loop_tasks a))
      (background_tasks a) (logged a).

(** The part of [load_endpoints] that starts the recurring jobs. *)
Definition load_endpoints (a : app) : app :=
  add_background_task "config.fetch_valid_lists"
    (add_background_task "config.reset_rate_limits"
       (add_background_task "config.get_projects_from_ldap" a)).

(** Ensure a clean shutdown of the portal by stopping background tasks.
    [set.clear()] empties the set; it calls nothing on its elements. *)
Definition shutdown (a : app) : app :=
  App (loop_tasks a) ∅ (logged a ++ [txt "Shutting down selfserve portal..."]).

(** One turn of the event loop: the handlers of the tasks that were not
    cancelled are resumed. *)
Definition loop_turn (a : app) : list string :=
  map handler (List.filter (fun t => negb (cancelled t)) (loop_tasks a)).

End Tasks.

(** ** Sample worlds *)
Module Sample.

(** A store given by its paths, with an empty trace. *)
Definition world_of (l : list (string * node)) : world :=
  World (list_to_map (map (fun kv => (txt (fst kv), snd kv)) l)) [].

Definition root : text := txt "/srv".

(** The usual modes: 0o755 for directories, 0o644 for files. *)
Definition rwx : Z := octal 7 5 5.
Definition rw : Z := octal 6 4 4.

(** A script tag with the given source path. *)
Definition script_tag (src : string) : text :=
  txt "<script src=" ++ [dq] ++ txt src ++ [dq] ++ txt "></script>".

(** The portal directory with a master template and some files. *)
Definition portal (template : text) (files : list (string * node)) : world :=
  world_of ([("/srv", Dir rwx); ("/srv/htdocs", Dir rwx);
             ("/srv/htdocs/templates", Dir rwx);
             ("/srv/htdocs/templates/master.html", File rw template)] ++ files).

End Sample.

(** Sample templates for the stamping loop. *)
Module StampSamples.
Import Sample.

(** One script that exists and one that does not. *)
Definition two_scripts : text :=
  script_tag "app.js" ++ script_tag "/js/missing.js" ++ txt "{contents}".



(** The same script referenced twice. *)
Definition same_script_twice : text :=
  script_tag "app.js" ++ script_tag "app.js" ++ txt "{contents}".

Definition with_app_js (template : text) : world :=
  portal template [("/srv/htdocs/app.js", File rw (txt "abc"))].


(** A site with one script and one fragment. *)
Definition site : world :=
  portal two_scripts [("/srv/htdocs/app.js", File rw (txt "abc"));
                      ("/srv/htdocs/index.html", File rw (txt "<p>hi</p>"))].

Definition abc_token : text :=
  txt "sha384-ywB1P0WjXou1oD1pmsZQBycsMqsO3tFjGotgWkP/W+2AhgcroefMI1i67KE0yCWn".

End StampSamples.

(** * Properties *)

(** ** Strings *)
Module StrFacts.
Import Str.

Lemma starts_with_prefix (p s : text) : starts_with p s = true <-> p `prefix_of` s.
Proof.
  revert s. induction p as [|a p IH]; intros [|b s]; simpl.
  - split; [intros _; apply prefix_nil | done].
  - split; [intros _; apply prefix_nil | done].
  - split; [done | intros H; by apply prefix_nil_not in H].
  - destruct (Ascii.eqb_spec a b) as [->|Hab].
    + rewrite IH. split; [apply prefix_cons | apply prefix_cons_inv_2].
    + split; [done | intros H; apply prefix_cons_inv_1 in H; done].
Qed.

Lemma starts_with_app (p k : text) : starts_with p (p ++ k) = true.
Proof. apply starts_with_prefix. by apply prefix_app_r. Qed.

Lemma starts_with_inv (p s : text) : starts_with p s = true -> exists k, s = p ++ k.
Proof. intros H. apply starts_with_prefix in H. destruct H as [k ->]. eauto. Qed.

Lemma starts_with_false (p s : text) : starts_with p s = false <-> ~ p `prefix_of` s.
Proof. rewrite <- starts_with_prefix. destruct (starts_with p s); naive_solver. Qed.





Lemma clear_of_nil old z : clear_of old [] z.
Proof. intros i Hi. simpl in Hi. lia. Qed.

Lemma clear_of_cons old c u z :
  starts_with old (c :: u ++ z) = false -> clear_of old u z -> clear_of old (c :: u) z.
Proof. intros H0 H [|i] Hi; simpl in *; [done|]. apply H. lia. Qed.

Lemma clear_of_cons_inv old c u z :
  clear_of old (c :: u) z -> starts_with old (c :: u ++ z) = false /\ clear_of old u z.
Proof.
  intros H. split; [apply (H 0%nat); simpl; lia|].
  intros i Hi. apply (H (S i)). simpl. lia.
Qed.

Lemma clear_of_app old u v z :
  clear_of old u (v ++ z) -> clear_of old v z -> clear_of old (u ++ v) z.
Proof.
  revert v z. induction u as [|c u IH]; intros v z Hu Hv; [done|].
  apply clear_of_cons_inv in Hu as [H0 Hu]. simpl.
  apply clear_of_cons; [by rewrite <- app_assoc | by apply IH].
Qed.



End StrFacts.

(** ** Paths *)
Module PathFacts.
Import Str StrFacts Path.

Lemma lstrip_head_ne (c a : ascii) (s : text) : a <> c -> lstrip c (a :: s) = a :: s.
Proof. intros H. cbn [lstrip]. by destruct (Ascii.eqb_spec a c). Qed.

Lemma lstrip_not_starts c s : starts_with [c] (lstrip c s) = false.
Proof.
  induction s as [|a s IH]; [done|]. cbn [lstrip].
  destruct (Ascii.eqb_spec a c) as [->|Hne]; [done|].
  cbn [starts_with]. destruct (Ascii.eqb_spec c a); [congruence | done].
Qed.

Lemma lstrip_run c k s : lstrip c (replicate k c ++ s) = lstrip c s.
Proof.
  induction k as [|k IH]; [done|].
  cbn [replicate app lstrip]. by rewrite Ascii.eqb_refl.
Qed.

Lemma open_ended_app d e : open_ended e -> open_ended (d ++ e).
Proof. intros (e' & c & -> & Hc). exists (d ++ e'), c. by rewrite app_assoc. Qed.

Lemma open_ended_not_ends d : open_ended d -> ends_with [sep] d = false.
Proof.
  intros (d' & c & -> & Hc). unfold ends_with. rewrite rev_unit. cbn [rev app starts_with].
  destruct (Ascii.eqb_spec sep c); [congruence | done].
Qed.

Lemma join_open d b :
  open_ended d -> starts_with [sep] b = false -> join d b = d ++ sep :: b.
Proof.
  intros Hd Hb. unfold join. rewrite Hb, (open_ended_not_ends d Hd).
  destruct Hd as (d' & c & -> & _). rewrite bool_decide_eq_false_2; [done|].
  by destruct d'.
Qed.

Lemma no_sep_not_starts (f : text) : sep ∉ f -> starts_with [sep] f = false.
Proof.
  destruct f as [|a f]; [done|]. intros H. cbn [starts_with].
  destruct (Ascii.eqb_spec sep a) as [<-|]; [|done].
  exfalso. apply H. by left.
Qed.

Lemma elem_of_rev (c : ascii) (l : text) : c ∈ rev l <-> c ∈ l.
Proof. rewrite !list_elem_of_In. symmetry. apply in_rev. Qed.

Lemma rsplit_rev_no_sep (t r : text) :
  sep ∉ t -> rsplit_rev (t ++ sep :: r) = (sep :: r, t).
Proof.
  induction t as [|c t IH]; intros H.
  - cbn [app rsplit_rev]. by rewrite Ascii.eqb_refl.
  - cbn [app rsplit_rev]. destruct (Ascii.eqb_spec c sep) as [->|Hc].
    + exfalso. apply H. by left.
    + rewrite IH; [done|]. intros Hin. apply H. by right.
Qed.

Lemma rsplit_rev_tail_no_sep (r : text) : sep ∉ snd (rsplit_rev r).
Proof.
  induction r as [|c r IH]; cbn [rsplit_rev snd]; [apply not_elem_of_nil|].
  destruct (Ascii.eqb_spec c sep) as [->|Hc]; cbn [snd]; [apply not_elem_of_nil|].
  destruct (rsplit_rev r) as [h t]. cbn [snd] in *.
  rewrite not_elem_of_cons. split; [congruence | done].
Qed.

Lemma split_tail_no_sep (p : text) : sep ∉ snd (split p).
Proof.
  unfold split. pose proof (rsplit_rev_tail_no_sep (rev p)) as H.
  destruct (rsplit_rev (rev p)) as [h t]. simpl in H.
  assert (sep ∉ rev t) by (by rewrite elem_of_rev).
  by case_bool_decide.
Qed.

Lemma lstrip_ne_nil (c a : ascii) (s : text) : a ∈ s -> a <> c -> lstrip c s <> [].
Proof.
  intros Hin Hne. induction s as [|b s IH]; [by apply elem_of_nil in Hin|].
  cbn [lstrip]. destruct (Ascii.eqb_spec b c) as [->|Hb]; [|done].
  apply IH. apply elem_of_cons in Hin as [->|Hin]; done.
Qed.

(** Splitting a child's path gives the directory and the name back. *)
Lemma split_child (d f : text) :
  open_ended d -> sep ∉ f -> split (d ++ sep :: f) = (d, f).
Proof.
  intros (d' & c & -> & Hc) Hf. unfold split.
  assert (E1 : rev ((d' ++ [c]) ++ sep :: f) = rev f ++ sep :: c :: rev d').
  { rewrite rev_app_distr. cbn [rev]. rewrite <- app_assoc. cbn [app].
    by rewrite rev_unit. }
  rewrite E1, rsplit_rev_no_sep by (by rewrite elem_of_rev).
  rewrite rev_involutive.
  assert (E2 : rev (sep :: c :: rev d') = (d' ++ [c]) ++ [sep]).
  { cbn [rev]. by rewrite rev_involutive. }
  rewrite E2.
  rewrite bool_decide_eq_false_2.
  2:{ apply (lstrip_ne_nil sep c); [|done]. rewrite !elem_of_app.
      left. right. by left. }
  f_equal. unfold rstrip. rewrite <- E2, rev_involutive.
  cbn [lstrip]. rewrite Ascii.eqb_refl.
  destruct (Ascii.eqb_spec c sep) as [|_]; [done|].
  cbn [rev]. by rewrite rev_involutive.
Qed.

Lemma ends_with_app (p s : text) : ends_with p (s ++ p) = true.
Proof. unfold ends_with. rewrite rev_app_distr. apply starts_with_app. Qed.

Lemma ends_with_inv (p s : text) : ends_with p s = true -> exists k, s = k ++ p.
Proof.
  unfold ends_with. intros H. apply starts_with_inv in H as [k Hk].
  exists (rev k). apply (f_equal (@rev ascii)) in Hk.
  by rewrite rev_involutive, rev_app_distr, rev_involutive in Hk.
Qed.

End PathFacts.

(** ** The pattern *)
Module ReFacts.
Import Str StrFacts Re.

Lemma lazy_rest_sound (r b : text) :
  lazy_rest r = Some b -> starts_with (b ++ js_close) r = true /\ nl ∉ b.
Proof.
  revert b. induction r as [|c r IH]; intros b.
  - cbn. discriminate.
  - cbn [lazy_rest]. destruct (starts_with js_close (c :: r)) eqn:E.
    + intros [= <-]. split; [done | apply not_elem_of_nil].
    + destruct (Ascii.eqb_spec c nl) as [->|Hc]; [discriminate|].
      destruct (lazy_rest r) as [b'|]; [|discriminate].
      intros [= <-]. destruct (IH b' eq_refl) as [H1 H2].
      split.
      * cbn [app starts_with]. by rewrite Ascii.eqb_refl.
      * rewrite not_elem_of_cons. split; [congruence | done].
Qed.


Lemma match_at_sound (s g1 g2 : text) :
  match_at s = Some (g1, g2) ->
  exists c b, g2 = c :: b ++ txt ".js" /\ (nl ∉ c :: b) /\
              g1 = src_open ++ g2 ++ [dq] /\ starts_with g1 s = true.
Proof.
  unfold match_at. destruct (starts_with src_open s) eqn:E; [|done].
  apply starts_with_inv in E as [k ->].
  change (skipn 5 (src_open ++ k)) with k.
  destruct k as [|c r]; [done|].
  destruct (Ascii.eqb_spec c nl) as [->|Hc]; [done|].
  destruct (lazy_rest r) as [b|] eqn:Hb; [|done].
  intros [= <- <-]. exists c, b.
  apply lazy_rest_sound in Hb as [H1 H2].
  split; [reflexivity|]. split; [rewrite not_elem_of_cons; split; [by intros <- | done]|].
  split; [reflexivity|].
  apply starts_with_inv in H1 as [k ->].
  replace (src_open ++ c :: (b ++ js_close) ++ k)
    with ((src_open ++ (c :: b ++ txt ".js") ++ [dq]) ++ k).
  - apply starts_with_app.
  - unfold js_close, src_open. cbn. rewrite <- !app_assoc. reflexivity.
Qed.


Lemma finditer_from_skip k s : finditer_from k s = finditer_from 0 (drop k s).
Proof.
  revert k. induction s as [|c s IH]; intros [|k]; try done.
  cbn [finditer_from drop]. apply IH.
Qed.

(** The two equations of the scan. *)
Lemma finditer_hit (s : text) (m : text * text) :
  match_at s = Some m -> finditer s = m :: finditer (drop (length (fst m)) s).
Proof.
  intros H. destruct m as [g1 g2].
  destruct (match_at_sound _ _ _ H) as (c & b & _ & _ & Hg1 & Hs).
  apply starts_with_inv in Hs as [k ->].
  destruct g1 as [|a g1]; [by destruct g2|].
  unfold finditer. cbn [app finditer_from]. cbn [app] in H. rewrite H.
  rewrite finditer_from_skip. cbn [fst length drop].
  by replace (S (length g1) - 1)%nat with (length g1) by lia.
Qed.

Lemma finditer_miss (c : ascii) (s : text) :
  match_at (c :: s) = None -> finditer (c :: s) = finditer s.
Proof. intros H. unfold finditer. cbn [finditer_from]. by rewrite H. Qed.

Lemma finditer_sound (s : text) (m : text * text) :
  m ∈ finditer s -> exists i, match_at (drop i s) = Some m.
Proof.
  remember (length s) as n eqn:Hn. revert s Hn.
  induction n as [n IH] using lt_wf_ind. intros s -> Hin.
  destruct s as [|c s]; [by apply elem_of_nil in Hin|].
  destruct (match_at (c :: s)) as [m'|] eqn:E.
  - rewrite (finditer_hit _ _ E) in Hin.
    apply elem_of_cons in Hin as [->|Hin]; [by exists 0%nat|].
    destruct m' as [g1 g2].
    destruct (match_at_sound _ _ _ E) as (c' & b & _ & _ & Hg1 & _).
    assert (length g1 <> 0%nat) by (rewrite Hg1; cbn; lia).
    cbn [fst] in Hin.
    destruct (IH (length (drop (length g1) (c :: s)))) with (s := drop (length g1) (c :: s))
      as [i Hi]; [rewrite length_drop; cbn [length]; lia | done | done |].
    exists (length g1 + i)%nat. by rewrite <- drop_drop.
  - rewrite (finditer_miss _ _ E) in Hin.
    destruct (IH (length s)) with (s := s) as [i Hi]; [cbn; lia | done | done |].
    by exists (S i).
Qed.

End ReFacts.

(** ** The directories of the portal *)
Section Layout.
Import Str StrFacts Path PathFacts.
Variable root : text.

Lemma STATIC_DIR_open : open_ended (STATIC_DIR root).
Proof.
  assert (E : exists x, STATIC_DIR root = x ++ txt "htdocs").
  { unfold STATIC_DIR, join. change (starts_with [sep] (txt "htdocs")) with false.
    cbv iota. destruct (bool_decide (root = []) || ends_with [sep] root).
    - by exists root.
    - exists (root ++ [sep]). by rewrite <- app_assoc. }
  destruct E as [x ->]. apply open_ended_app.
  exists (txt "htdoc"), "s"%char. split; [reflexivity | discriminate].
Qed.

(** Joining a relative name to the static root puts one separator between. *)
Lemma static_join (b : text) :
  starts_with [sep] b = false -> join (STATIC_DIR root) b = STATIC_DIR root ++ sep :: b.
Proof. apply join_open, STATIC_DIR_open. Qed.

Lemma COMPILED_DIR_eq : COMPILED_DIR root = STATIC_DIR root ++ txt "/compiled".
Proof. unfold COMPILED_DIR. by rewrite static_join. Qed.

Lemma TEMPLATES_DIR_eq : TEMPLATES_DIR root = STATIC_DIR root ++ txt "/templates".
Proof. unfold TEMPLATES_DIR. by rewrite static_join. Qed.

Lemma COMPILED_DIR_open : open_ended (COMPILED_DIR root).
Proof.
  rewrite COMPILED_DIR_eq. apply open_ended_app.
  exists (txt "/compile"), "d"%char. split; [reflexivity | discriminate].
Qed.

Lemma compiled_join (b : text) :
  starts_with [sep] b = false ->
  join (COMPILED_DIR root) b = STATIC_DIR root ++ txt "/compiled/" ++ b.
Proof.
  intros H. rewrite join_open by (apply COMPILED_DIR_open || done).
  rewrite COMPILED_DIR_eq, <- app_assoc. reflexivity.
Qed.

Lemma template_path_eq :
  join (TEMPLATES_DIR root) (txt "master.html")
  = STATIC_DIR root ++ txt "/templates/master.html".
Proof.
  rewrite join_open; [| |done].
  - rewrite TEMPLATES_DIR_eq, <- app_assoc. reflexivity.
  - rewrite TEMPLATES_DIR_eq. apply open_ended_app.
    exists (txt "/template"), "s"%char. split; [reflexivity | discriminate].
Qed.

(** The script path of a matched reference. *)
Lemma script_path_eq (g2 : text) :
  join (STATIC_DIR root) (lstrip sep g2) = STATIC_DIR root ++ sep :: lstrip sep g2.
Proof. apply static_join, lstrip_not_starts. Qed.

End Layout.

(** ** The file store *)
Module OsFacts.
Import Str StrFacts Path PathFacts Os.

Lemma dirs_added_refl P w : dirs_added P w w.
Proof. exists []. rewrite app_nil_r. split_and!; [done | done | by left]. Qed.

Lemma dirs_added_trans (P1 P2 P : text -> Z -> Prop) w1 w2 w3 :
  (forall k m, P1 k m -> P k m) -> (forall k m, P2 k m -> P k m) ->
  dirs_added P1 w1 w2 -> dirs_added P2 w2 w3 -> dirs_added P w1 w3.
Proof.
  intros Hn1 Hn2 (e1 & T1 & F1 & N1) (e2 & T2 & F2 & N2).
  exists (e1 ++ e2). rewrite T2, T1, app_assoc.
  split_and!; [done | by apply Forall_app |].
  intros k. destruct (N2 k) as [E2|(E2 & m & L2 & E2' & I2)];
    destruct (N1 k) as [E1|(E1 & m' & L1 & E1' & I1)].
  - left. congruence.
  - right. split; [done|]. exists m'. split_and!; [by apply Hn1 | congruence |].
    apply elem_of_app. by left.
  - right. split; [congruence|]. exists m. split_and!; [by apply Hn2 | done |].
    apply elem_of_app. by right.
  - congruence.
Qed.

Lemma dirs_added_weaken (P1 P : text -> Z -> Prop) w w' :
  (forall k m, P1 k m -> P k m) -> dirs_added P1 w w' -> dirs_added P w w'.
Proof.
  intros Hn H.
  apply (dirs_added_trans P1 P P w w' w'); [done | done | done | apply dirs_added_refl].
Qed.

Lemma check_parent_world p w : snd (check_parent p w) = w.
Proof.
  unfold check_parent. destruct (nodes w !! (split p).1) as [[m d|m]|]; try done.
  by destruct (can_write m && can_search m).
Qed.

Lemma mkdir_inv p mode w r w' :
  mkdir p mode w = (r, w') ->
  (r = inr tt /\ nodes w !! p = None /\
   w' = World (<[p := Dir mode]> (nodes w)) (trace w ++ [Mkdir p mode]))
  \/ (exists e, r = inl e /\ w' = w).
Proof.
  unfold mkdir. destruct (nodes w !! p) as [n|] eqn:E.
  - intros [= <- <-]. right. eauto.
  - destruct (check_parent p w) as [[e|[]] w1].
    + intros [= <- <-]. right. eauto.
    + intros [= <- <-]. left. done.
Qed.

Lemma mkdir_added p mode w r w' :
  mkdir p mode w = (r, w') -> dirs_added (makes p mode) w w'.
Proof.
  intros H. apply mkdir_inv in H as [(-> & E & ->)|(e & -> & ->)];
    [|apply dirs_added_refl].
  exists [Mkdir p mode]. cbn [trace nodes].
  split_and!; [done | by repeat constructor |].
  intros k. destruct (decide (k = p)) as [->|Hk].
  - right. split; [done|]. exists mode.
    rewrite lookup_insert_eq. split_and!; [by left | done | by left].
  - left. by rewrite lookup_insert_ne.
Qed.

Lemma lstrip_suffix c s : lstrip c s `suffix_of` s.
Proof.
  induction s as [|a s IH]; [done|]. cbn [lstrip].
  destruct (Ascii.eqb a c); [by apply suffix_cons_r | done].
Qed.

Lemma rstrip_prefix c s : rstrip c s `prefix_of` s.
Proof.
  unfold rstrip. destruct (lstrip_suffix c (rev s)) as [k E].
  exists (rev k). apply (f_equal (@rev ascii)) in E.
  by rewrite rev_involutive, rev_app_distr in E.
Qed.

Lemma rsplit_rev_app r : snd (rsplit_rev r) ++ fst (rsplit_rev r) = r.
Proof.
  induction r as [|c r IH]; [done|]. cbn [rsplit_rev].
  destruct (Ascii.eqb c sep); [done|].
  destruct (rsplit_rev r) as [h t]. cbn [fst snd app] in *. by rewrite IH.
Qed.

(** The head of a split is a prefix of the path, and the tail is what is
    left out at least. *)
Lemma split_head_prefix p : fst (split p) `prefix_of` p.
Proof.
  unfold split. pose proof (rsplit_rev_app (rev p)) as H.
  destruct (rsplit_rev (rev p)) as [h t]. cbn [fst snd] in H.
  assert (E : p = rev h ++ rev t).
  { apply (f_equal (@rev ascii)) in H.
    by rewrite rev_involutive, rev_app_distr in H. }
  case_bool_decide; cbn [fst].
  - rewrite E. by apply prefix_app_r.
  - etransitivity; [apply rstrip_prefix|]. rewrite E. by apply prefix_app_r.
Qed.

Lemma split_length p :
  (length (fst (split p)) + length (snd (split p)) <= length p)%nat.
Proof.
  unfold split. pose proof (rsplit_rev_app (rev p)) as H.
  destruct (rsplit_rev (rev p)) as [h t]. cbn [fst snd] in H.
  apply (f_equal length) in H. rewrite length_app, !length_rev in H.
  case_bool_decide; cbn [fst snd].
  - rewrite !length_rev. lia.
  - pose proof (prefix_length _ _ (rstrip_prefix sep (rev h))) as H'.
    rewrite !length_rev in *. lia.
Qed.

Lemma makedirs_leaf_added name mode w r w' :
  makedirs_leaf name mode w = (r, w') -> dirs_added (makes name mode) w w'.
Proof.
  unfold makedirs_leaf. destruct (mkdir name mode w) as [[e|[]] w1] eqn:E.
  - apply mkdir_added in E.
    destruct (nodes w1 !! name) as [[?|?]|]; by intros [= <- <-].
  - apply mkdir_added in E. by intros [= <- <-].
Qed.

Lemma makedirs_leaf_dir name mode w w' :
  makedirs_leaf name mode w = (inr tt, w') -> exists m, nodes w' !! name = Some (Dir m).
Proof.
  unfold makedirs_leaf. destruct (mkdir name mode w) as [[e|[]] w1] eqn:E.
  - destruct (nodes w1 !! name) as [[?|m]|] eqn:E'; try done.
    intros [= <-]. eauto.
  - apply mkdir_inv in E as [(_ & _ & ->)|(e & ? & _)]; [|done].
    intros [= <-]. exists mode. cbn. by rewrite lookup_insert_eq.
Qed.

Lemma makes_shorter (h name : text) (m mode : Z) (k : text) (m' : Z) :
  h `prefix_of` name -> (length h < length name)%nat ->
  makes h m k m' -> makes name mode k m'.
Proof.
  intros Hp L [[-> _]|[Hp' L']]; right; [done|].
  split; [by etransitivity | lia].
Qed.

Lemma makedirs_fuel_added fuel name mode w r w' :
  makedirs_fuel fuel name mode w = (r, w') -> dirs_added (makes name mode) w w'.
Proof.
  revert name mode w r w'. induction fuel as [|fuel IH]; intros name mode w r w'.
  - cbn [makedirs_fuel]. destruct (split name) as [h t].
    destruct (if bool_decide (t = []) then split h else (h, t)) as [h' t'].
    unfold bind, exists_.
    destruct (bool_decide (h' <> []) && bool_decide (t' <> []) && _);
      apply makedirs_leaf_added.
  - cbn [makedirs_fuel].
    pose proof (split_length name) as L1. pose proof (split_head_prefix name) as P1.
    destruct (split name) as [h t]. cbn [fst snd] in L1, P1.
    assert (L2 : forall h' t', (if bool_decide (t = []) then split h else (h, t)) = (h', t')
                  -> (length h' + length t' <= length name)%nat /\ h' `prefix_of` name).
    { intros h' t'. case_bool_decide.
      - intros E. pose proof (split_length h) as L. pose proof (split_head_prefix h) as P.
        rewrite E in L, P. cbn in L, P. split; [lia | by etransitivity].
      - intros [= <- <-]. done. }
    destruct (if bool_decide (t = []) then split h else (h, t)) as [h' t'].
    destruct (L2 h' t' eq_refl) as [L2' P2]. clear L2.
    unfold bind at 1. unfold exists_ at 1.
    destruct (bool_decide (t' <> [])) eqn:Et;
      [|rewrite andb_false_r; apply makedirs_leaf_added].
    apply bool_decide_eq_true_1 in Et.
    assert (L3 : (length h' < length name)%nat).
    { destruct t'; [done|]. cbn [length] in L2'. lia. }
    destruct (bool_decide (h' <> []) && true && _); [|apply makedirs_leaf_added].
    unfold bind.
    destruct (makedirs_fuel fuel h' (octal 7 7 7) w) as [[e|[]] w1] eqn:E1.
    + apply IH in E1.
      apply (dirs_added_weaken _ (makes name mode)) in E1;
        [|intros k m; by apply makes_shorter].
      destruct e; try (by intros [= <- <-]).
      case_bool_decide; [by intros [= <- <-]|].
      intros H2. apply makedirs_leaf_added in H2.
      by apply (dirs_added_trans (makes name mode) (makes name mode) _ w w1 w').
    + apply IH in E1.
      apply (dirs_added_weaken _ (makes name mode)) in E1;
        [|intros k m; by apply makes_shorter].
      case_bool_decide; [by intros [= <- <-]|].
      intros H2. apply makedirs_leaf_added in H2.
      by apply (dirs_added_trans (makes name mode) (makes name mode) _ w w1 w').
Qed.

(** The fuel of [makedirs] is enough: more of it changes nothing, since
    each climb goes to a strictly shorter path. *)
Lemma makedirs_fuel_enough n name mode :
  (length name <= n)%nat -> makedirs_fuel n name mode = makedirs name mode.
Proof.
  unfold makedirs. remember (length name) as k eqn:Hk. revert name mode n Hk.
  induction k as [k IH] using lt_wf_ind. intros name mode n -> Hn.
  assert (Hstep : forall fuel, (length name <= fuel)%nat ->
            makedirs_fuel fuel name mode
            = let '(head, tail) := Path.split name in
              let '(head, tail) :=
                if bool_decide (tail = []) then Path.split head else (head, tail) in
              do head_exists <- exists_ head ;;
              if bool_decide (head <> []) && bool_decide (tail <> []) && negb head_exists
              then run (fun w =>
                          match makedirs_fuel (length head) head (octal 7 7 7) w with
                          | (inl FileExistsError, w') => (inr tt, w')
                          | r => r
                          end) ;;
                   if bool_decide (tail = txt ".") then ret tt else makedirs_leaf name mode
              else makedirs_leaf name mode).
  { intros fuel Hf.
    pose proof (split_length name) as L1.
    destruct fuel as [|fuel]; cbn [makedirs_fuel];
      destruct (split name) as [h t]; cbn [fst snd] in L1.
    - assert (name = []) as -> by (destruct name; [done | cbn in Hf; lia]).
      cbn in L1. assert (h = []) as -> by (destruct h; [done | cbn in L1; lia]).
      assert (t = []) as -> by (destruct t; [done | cbn in L1; lia]).
      rewrite bool_decide_eq_true_2 by done.
      change (split []) with (@nil ascii, @nil ascii). cbv beta iota.
      case_bool_decide as H0; [by destruct H0 | done].
    - assert (L2 : forall h' t',
                (if bool_decide (t = []) then split h else (h, t)) = (h', t') ->
                (length h' + length t' <= length name)%nat).
      { intros h' t'. case_bool_decide.
        - intros E. pose proof (split_length h) as L. rewrite E in L. cbn in L. lia.
        - intros [= <- <-]. done. }
      destruct (if bool_decide (t = []) then split h else (h, t)) as [h' t'].
      specialize (L2 h' t' eq_refl).
      destruct (bool_decide (t' <> [])) eqn:Et.
      + apply bool_decide_eq_true_1 in Et.
        assert (L3 : (length h' < length name)%nat).
        { destruct t'; [done|]. cbn [length] in L2. lia. }
        rewrite (IH (length h') L3 h' (octal 7 7 7) fuel eq_refl) by lia. done.
      + rewrite !andb_false_r. done. }
  rewrite (Hstep n Hn), (Hstep (length name)) by lia. done.
Qed.

(** A write fails and leaves the world alone, or leaves a file that the
    owner can write with exactly the data given. *)
Lemma write_file_inv p data w r w' :
  write_file p data w = (r, w') ->
  (exists e, r = inl e /\ w' = w) \/
  (r = inr tt /\ exists m,
     can_write m = true /\
     w' = World (<[p := File m data]> (nodes w)) (trace w ++ [WriteFile p data])).
Proof.
  unfold write_file. destruct (nodes w !! p) as [[m d|m]|] eqn:E.
  - destruct (can_write m) eqn:Hw; intros [= <- <-]; [right | left]; eauto.
  - intros [= <- <-]. left. eauto.
  - destruct (check_parent p w) as [[e|[]] w1]; intros [= <- <-]; [left | right]; eauto.
    split; [done|]. by exists (octal 6 6 6).
Qed.


End OsFacts.

(** ** Runs of the hook *)
Section RunFacts.
Import Str StrFacts Path PathFacts Re ReFacts Os OsFacts.
Variable root : text.

Local Abbreviation STATIC := (STATIC_DIR root).
Local Abbreviation COMPILED := (COMPILED_DIR root).

Lemma read_bytes_file p w m d :
  nodes w !! p = Some (File m d) -> can_read m = true -> read_bytes p w = (inr d, w).
Proof. intros E R. unfold read_bytes. by rewrite E, R. Qed.

Lemma read_bytes_inv p w r w' :
  read_bytes p w = (r, w') ->
  w' = w /\
  match r with
  | inr d => exists m, nodes w !! p = Some (File m d) /\ can_read m = true
  | inl e =>
      match nodes w !! p with
      | Some (File m _) => can_read m = false /\ e = PermissionError
      | Some (Dir _) => e = IsADirectoryError
      | None => e = FileNotFoundError
      end
  end.
Proof.
  unfold read_bytes. destruct (nodes w !! p) as [[m d|m]|] eqn:E.
  - destruct (can_read m) eqn:R; intros [= <- <-]; eauto.
  - by intros [= <- <-].
  - by intros [= <- <-].
Qed.

Lemma read_file_inv p w r w' :
  read_file p w = (r, w') ->
  w' = w /\
  match r with
  | inr t => exists m d, nodes w !! p = Some (File m d) /\ can_read m = true /\
                         t = universal_newlines false d
  | inl e =>
      match nodes w !! p with
      | Some (File m _) => can_read m = false /\ e = PermissionError
      | Some (Dir _) => e = IsADirectoryError
      | None => e = FileNotFoundError
      end
  end.
Proof.
  unfold read_file, bind. destruct (read_bytes p w) as [[e|d] w1] eqn:E.
  - apply read_bytes_inv in E as [-> E]. by intros [= <- <-].
  - apply read_bytes_inv in E as [-> (m & E & R)]. intros [= <- <-]. eauto 10.
Qed.

Lemma file_to_sri_file p w m d :
  nodes w !! p = Some (File m d) -> can_read m = true ->
  file_to_sri p w = (inr (sri_of_bytes d), w).
Proof. intros E R. unfold file_to_sri, bind. by rewrite (read_bytes_file p w m d). Qed.

(** The three ways an iteration of the stamping loop can go. *)
Lemma stamp_script_file tpl g1 g2 w m d :
  nodes w !! (STATIC ++ sep :: lstrip sep g2) = Some (File m d) -> can_read m = true ->
  stamp_script root tpl (g1, g2) w
  = (inr (replace g1 (g1 ++ integrity_attr (sri_of_bytes d)) tpl), w).
Proof.
  intros E R. unfold stamp_script, bind, isfile. cbn [fst snd].
  rewrite script_path_eq, E. by rewrite (file_to_sri_file _ w m d).
Qed.

Lemma stamp_script_unreadable tpl g1 g2 w m d :
  nodes w !! (STATIC ++ sep :: lstrip sep g2) = Some (File m d) -> can_read m = false ->
  stamp_script root tpl (g1, g2) w = (inl PermissionError, w).
Proof.
  intros E R. unfold stamp_script, bind, isfile. cbn [fst snd].
  rewrite script_path_eq, E. unfold file_to_sri, bind, read_bytes. by rewrite E, R.
Qed.

Lemma stamp_script_missing tpl g1 g2 w :
  (forall m d, nodes w !! (STATIC ++ sep :: lstrip sep g2) <> Some (File m d)) ->
  stamp_script root tpl (g1, g2) w = (inr tpl, w).
Proof.
  intros E. unfold stamp_script, bind, isfile. cbn [fst snd].
  rewrite script_path_eq.
  destruct (nodes w !! (STATIC ++ sep :: lstrip sep g2)) as [[m d|m]|] eqn:E'; try done.
  by destruct (E m d).
Qed.

Lemma stamp_script_world tpl m w r w' : stamp_script root tpl m w = (r, w') -> w' = w.
Proof.
  destruct m as [g1 g2].
  destruct (nodes w !! (STATIC ++ sep :: lstrip sep g2)) as [[m d|m]|] eqn:E.
  - destruct (can_read m) eqn:R.
    + rewrite (stamp_script_file _ _ _ _ m d) by done. by intros [= _ <-].
    + rewrite (stamp_script_unreadable _ _ _ _ m d) by done. by intros [= _ <-].
  - rewrite stamp_script_missing by congruence. by intros [= _ <-].
  - rewrite stamp_script_missing by congruence. by intros [= _ <-].
Qed.

Lemma stamp_loop_world ms tpl w r w' :
  for_fold ms (stamp_script root) tpl w = (r, w') -> w' = w.
Proof.
  revert tpl. induction ms as [|m ms IH]; intros tpl.
  - by intros [= _ <-].
  - cbn [for_fold]. unfold bind.
    destruct (stamp_script root tpl m w) as [[e|t] w1] eqn:E.
    + apply stamp_script_world in E as ->. by intros [= _ <-].
    + apply stamp_script_world in E as ->. apply IH.
Qed.

Lemma stamp_scripts_world tpl w r w' : stamp_scripts root tpl w = (r, w') -> w' = w.
Proof. apply stamp_loop_world. Qed.

Lemma stamp_script_ext tpl g1 g2 w1 w2 :
  same_file w1 w2 (STATIC ++ sep :: lstrip sep g2) ->
  fst (stamp_script root tpl (g1, g2) w1) = fst (stamp_script root tpl (g1, g2) w2).
Proof.
  intros H.
  destruct (nodes w1 !! (STATIC ++ sep :: lstrip sep g2)) as [[m d|m]|] eqn:E.
  - pose proof (proj1 (H m d) E) as E2. destruct (can_read m) eqn:R.
    + by rewrite (stamp_script_file _ _ _ w1 m d), (stamp_script_file _ _ _ w2 m d).
    + by rewrite (stamp_script_unreadable _ _ _ w1 m d),
                 (stamp_script_unreadable _ _ _ w2 m d).
  - rewrite !stamp_script_missing; [done | | congruence].
    intros m' d' E2. apply H in E2. congruence.
  - rewrite !stamp_script_missing; [done | | congruence].
    intros m' d' E2. apply H in E2. congruence.
Qed.

Lemma stamp_loop_ext ms tpl w1 w2 :
  (forall g1 g2, (g1, g2) ∈ ms -> same_file w1 w2 (STATIC ++ sep :: lstrip sep g2)) ->
  fst (for_fold ms (stamp_script root) tpl w1) = fst (for_fold ms (stamp_script root) tpl w2).
Proof.
  revert tpl. induction ms as [|[g1 g2] ms IH]; intros tpl H; [done|].
  cbn [for_fold]. unfold bind.
  pose proof (stamp_script_ext tpl g1 g2 w1 w2 (H g1 g2 ltac:(by left))) as E.
  destruct (stamp_script root tpl (g1, g2) w1) as [[e|t] w1'] eqn:E1;
    destruct (stamp_script root tpl (g1, g2) w2) as [[e'|t'] w2'] eqn:E2;
    cbn [fst] in E |- *; try congruence.
  injection E as ->.
  apply stamp_script_world in E1 as ->. apply stamp_script_world in E2 as ->.
  apply IH. intros g1' g2' Hin. apply (H g1' g2'). by right.
Qed.

End RunFacts.

(** ** Resolution of script paths *)
Section Resolution.
Import Str StrFacts Path PathFacts Re ReFacts Os OsFacts.
Variable root : text.

Lemma lstrip_id (c : ascii) (s : text) : starts_with [c] s = false -> lstrip c s = s.
Proof.
  destruct s as [|a s]; [done|]. cbn [starts_with lstrip].
  destruct (Ascii.eqb_spec c a) as [->|Hne]; [done|]. intros _.
  destruct (Ascii.eqb_spec a c); [congruence | done].
Qed.

Lemma finditer_shape (T g1 g2 : text) :
  (g1, g2) ∈ finditer T -> g1 = src_open ++ g2 ++ [dq].
Proof.
  intros H. apply finditer_sound in H as [i H].
  by destruct (match_at_sound _ _ _ H) as (c & b & _ & _ & -> & _).
Qed.

(** C10. A matched script reference whose path begins with slashes is
    resolved by stripping all of them and joining the rest to the static
    root, and the file found there gives the token; the attribute text
    written back keeps the path as it was, slashes included. *)
Theorem leading_slashes_resolve_under_static_root
    (T tpl : text) (w : world) (k : nat) (rest g1 : text) (m : Z) (d : text) :
  (g1, replicate k sep ++ rest) ∈ finditer T ->
  starts_with [sep] rest = false ->
  nodes w !! (STATIC_DIR root ++ sep :: rest) = Some (File m d) ->
  can_read m = true ->
  join (STATIC_DIR root) (lstrip sep (replicate k sep ++ rest))
    = STATIC_DIR root ++ sep :: rest /\
  g1 = src_open ++ (replicate k sep ++ rest) ++ [dq] /\
  stamp_script root tpl (g1, replicate k sep ++ rest) w
    = (inr (replace g1
              (src_open ++ (replicate k sep ++ rest) ++ [dq]
               ++ integrity_attr (sri_of_bytes d)) tpl), w).
Proof.
  intros Hin Hrest Hfile Hread.
  assert (E : lstrip sep (replicate k sep ++ rest) = rest)
    by (by rewrite lstrip_run, lstrip_id).
  pose proof (finditer_shape _ _ _ Hin) as Hg1.
  split; [by rewrite E, static_join|]. split; [done|].
  rewrite (stamp_script_file root tpl g1 _ w m d); [|by rewrite E|done].
  rewrite Hg1 at 2. by rewrite <- !app_assoc.
Qed.

End Resolution.

Lemma leading_slashes_witness :
  let T := Sample.script_tag "/app.js" ++ txt "{contents}" in
  let w := Sample.portal T [("/srv/htdocs/app.js", File Sample.rw (txt "abc"))] in
  let g1 := Re.src_open ++ txt "/app.js" ++ [dq] in
  ((g1, replicate 1 Path.sep ++ txt "app.js") ∈ Re.finditer T /\
   Str.starts_with [Path.sep] (txt "app.js") = false /\
   nodes w !! (STATIC_DIR Sample.root ++ Path.sep :: txt "app.js")
     = Some (File Sample.rw (txt "abc")) /\
   can_read Sample.rw = true) /\
  stamp_script Sample.root T (g1, txt "/app.js") w
    = (inr (txt "<script src=" ++ [dq] ++ txt "/app.js" ++ [dq]
            ++ integrity_attr
                 (txt "sha384-ywB1P0WjXou1oD1pmsZQBycsMqsO3tFjGotgWkP/W+2AhgcroefMI1i67KE0yCWn")
            ++ txt "></script>{contents}"), w).
Proof.
  intros T w g1.
  assert (H1 : (g1, replicate 1 Path.sep ++ txt "app.js") ∈ Re.finditer T)
    by (vm_compute; left).
  assert (H2 : Str.starts_with [Path.sep] (txt "app.js") = false) by reflexivity.
  assert (H3 : nodes w !! (STATIC_DIR Sample.root ++ Path.sep :: txt "app.js")
               = Some (File Sample.rw (txt "abc"))) by (vm_compute; reflexivity).
  assert (H4 : can_read Sample.rw = true) by reflexivity.
  split; [done|].
  destruct (leading_slashes_resolve_under_static_root Sample.root T T w 1 (txt "app.js")
              g1 Sample.rw (txt "abc") H1 H2 H3 H4) as (_ & _ & E).
  etransitivity; [exact E|]. vm_compute. reflexivity.
Defined.

(** ** The loop over the fragments *)
Section Pages.
Import Str StrFacts Path PathFacts Re ReFacts Os OsFacts.
Variable root : text.

Local Abbreviation STATIC := (STATIC_DIR root).
Local Abbreviation COMPILED := (COMPILED_DIR root).

Lemma compiled_child_eq (f : text) :
  COMPILED ++ sep :: f = STATIC ++ txt "/compiled/" ++ f.
Proof. rewrite COMPILED_DIR_eq, <- app_assoc. reflexivity. Qed.

(** A fragment and a compiled page never share a path. *)
Lemma static_ne_compiled (f f' : text) :
  sep ∉ f -> STATIC ++ sep :: f <> COMPILED ++ sep :: f'.
Proof.
  intros Hf E. rewrite compiled_child_eq in E. apply app_inv_head in E.
  injection E as ->. apply Hf.
  do 8 apply list_elem_of_further. apply list_elem_of_here.
Qed.

Lemma compiled_child_inj (f f' : text) :
  COMPILED ++ sep :: f = COMPILED ++ sep :: f' -> f = f'.
Proof. intros E. apply app_inv_head in E. by injection E. Qed.

Lemma compiled_ne_child (f : text) : COMPILED <> COMPILED ++ sep :: f.
Proof.
  intros E. apply (f_equal length) in E. rewrite length_app in E. cbn in E. lia.
Qed.

Lemma static_ne_compiled_child (f : text) : STATIC <> COMPILED ++ sep :: f.
Proof.
  intros E. rewrite compiled_child_eq in E.
  apply (f_equal length) in E. rewrite !length_app in E. cbn in E. lia.
Qed.

Lemma compile_page_inv tpl f w r w' :
  sep ∉ f -> compile_page root tpl f w = (r, w') ->
  (exists e, r = inl e /\ w' = World (nodes w) (trace w ++ [announce f])) \/
  (r = inr tt /\ exists m d m',
     nodes w !! (STATIC ++ sep :: f) = Some (File m d) /\ can_read m = true /\
     can_write m' = true /\
     w' = World (<[COMPILED ++ sep :: f := File m' (page_output tpl d)]> (nodes w))
                (trace w ++ [announce f; WriteFile (COMPILED ++ sep :: f) (page_output tpl d)])).
Proof.
  intros Hf. pose proof (no_sep_not_starts f Hf) as Hs.
  unfold compile_page, bind, emit.
  rewrite (static_join root f Hs), (join_open (COMPILED_DIR root) f (COMPILED_DIR_open root) Hs).
  set (w1 := World (nodes w) _).
  destruct (read_file (STATIC ++ sep :: f) w1) as [[e|t] w2] eqn:E.
  - apply read_file_inv in E as [-> _]. intros [= <- <-]. left. eauto.
  - apply read_file_inv in E as [-> (m & d & E & R & ->)].
    intros H. apply write_file_inv in H as [(e & -> & ->)|(-> & m' & Hw & ->)].
    + left. eauto.
    + right. split; [done|]. exists m, d, m'. split_and!; try done.
      subst w1. cbn [nodes trace]. by rewrite <- app_assoc.
Qed.

Lemma pages_loop names tpl w r w' :
  Forall (fun f => sep ∉ f) names ->
  for_each names (compile_page root tpl) w = (r, w') ->
  (exists evs,
     trace w' = trace w ++ evs /\ Forall is_page_event evs /\
     forall k n, nodes w' !! k = Some n ->
       nodes w !! k = Some n \/ exists m d, n = File m d /\ WriteFile k d ∈ evs) /\
  (forall k, (forall f, f ∈ names -> k <> COMPILED ++ sep :: f) ->
             nodes w' !! k = nodes w !! k) /\
  (r = inr tt ->
   forall f, f ∈ names ->
     exists m d m',
       nodes w !! (STATIC ++ sep :: f) = Some (File m d) /\ can_read m = true /\
       nodes w' !! (COMPILED ++ sep :: f) = Some (File m' (page_output tpl d)) /\
       can_write m' = true).
Proof.
  intros Hnames. revert w. induction Hnames as [|f names Hf Hnames IH]; intros w.
  - intros [= <- <-]. split_and!.
    + exists []. rewrite app_nil_r. split_and!; [done | done | by left].
    + done.
    + intros _ f Hin. by apply elem_of_nil in Hin.
  - cbn [for_each]. unfold bind.
    destruct (compile_page root tpl f w) as [[e|[]] w1] eqn:E.
    + apply compile_page_inv in E as [(e' & _ & ->)|(? & _)]; [|done|done].
      intros [= <- <-]. cbn [nodes trace]. split_and!; [|done|done].
      eexists. split_and!; [done | by repeat constructor | by left].
    + apply compile_page_inv in E as [(e' & ? & _)|(_ & m & d & m' & E & R & Hw & ->)];
        [done| |done].
      intros H. apply IH in H as ((evs & T & Fe & Src) & Frame & Ok).
      cbn [nodes trace] in *. split_and!.
      * eexists. rewrite T, <- app_assoc. split_and!; [done | |].
        -- apply Forall_app. split; [by repeat constructor | done].
        -- intros k n Hk. destruct (Src k n Hk) as [Hk'|(m1 & d1 & -> & Hin)].
           ++ destruct (decide (k = COMPILED ++ sep :: f)) as [->|Hne].
              ** rewrite lookup_insert_eq in Hk'. injection Hk' as <-.
                 right. eexists _, _. split; [done|]. cbn [app].
                 apply list_elem_of_further, list_elem_of_here.
              ** rewrite lookup_insert_ne in Hk' by done. by left.
           ++ right. eexists _, _. split; [done|]. apply elem_of_app. by right.
      * intros k Hk. rewrite Frame by (intros f' Hin; apply Hk; by right).
        apply lookup_insert_ne. intros <-. by apply (Hk f); [left|].
      * intros -> f' Hin.
        assert (Hstatic : forall g, sep ∉ g ->
                  (<[COMPILED ++ sep :: f := File m' (page_output tpl d)]> (nodes w))
                    !! (STATIC ++ sep :: g) = nodes w !! (STATIC ++ sep :: g)).
        { intros g Hg. apply lookup_insert_ne. intros E'. symmetry in E'.
          by apply static_ne_compiled in E'. }
        destruct (decide (f' ∈ names)) as [Hin'|Hout].
        -- destruct (Ok eq_refl f' Hin') as (m1 & d1 & m1' & E1 & R1 & E1' & W1).
           rewrite Hstatic in E1 by (by eapply Forall_forall in Hnames).
           exists m1, d1, m1'. done.
        -- apply elem_of_cons in Hin as [->|Hin]; [|done].
           exists m, d, m'. split_and!; try done.
           rewrite Frame.
           ++ apply lookup_insert_eq.
           ++ intros g Hg E'. apply compiled_child_inj in E' as ->. done.
Qed.

(** The names [os.listdir] gives for the static root. *)
Lemma child_name_static (k n : text) :
  child_name STATIC k = Some n <-> n <> [] /\ (sep ∉ n) /\ k = STATIC ++ sep :: n.
Proof.
  unfold child_name. split.
  - case_bool_decide as H; [|done]. intros [= <-]. destruct H as [Hne Hj].
    pose proof (split_tail_no_sep k) as Hs.
    rewrite static_join in Hj by (by apply no_sep_not_starts). done.
  - intros (Hne & Hs & ->).
    rewrite (split_child STATIC n (STATIC_DIR_open root) Hs). cbn [snd].
    rewrite bool_decide_eq_true_2; [done|].
    split; [done|]. by rewrite static_join by (by apply no_sep_not_starts).
Qed.

Lemma listdir_static_inv w r w' :
  listdir STATIC w = (r, w') ->
  w' = w /\
  match r with
  | inr names =>
      (exists m, nodes w !! STATIC = Some (Dir m) /\ can_read m = true) /\
      forall n, n ∈ names <->
                n <> [] /\ (sep ∉ n) /\ is_Some (nodes w !! (STATIC ++ sep :: n))
  | inl _ => True
  end.
Proof.
  unfold listdir. destruct (nodes w !! STATIC) as [[m d|m]|] eqn:E;
    try (by intros [= <- <-]).
  destruct (can_read m) eqn:R; intros [= <- <-]; [|done].
  split; [done|]. split; [eauto|]. intros n. rewrite list_elem_of_omap. split.
  - intros ([k v] & Hin & Hc). cbn [fst] in Hc.
    apply child_name_static in Hc as (Hne & Hs & ->).
    apply elem_of_map_to_list in Hin. split_and!; [done | done | eauto].
  - intros (Hne & Hs & [v Hv]). exists (STATIC ++ sep :: n, v). split.
    + by apply elem_of_map_to_list.
    + cbn [fst]. by apply child_name_static.
Qed.

End Pages.

(** ** The output directory and the phases of the pass *)
Section Phases.
Import Str StrFacts Path PathFacts Re ReFacts Os OsFacts.
Variable root : text.

Local Abbreviation STATIC := (STATIC_DIR root).
Local Abbreviation COMPILED := (COMPILED_DIR root).
Local Abbreviation TEMPLATE := (join (TEMPLATES_DIR root) (txt "master.html")).

Lemma page_events_no_mkdir evs p m : Forall is_page_event evs -> Mkdir p m ∉ evs.
Proof. intros H Hin. by eapply Forall_forall in H; [|exact Hin]. Qed.


Lemma split_compiled : split COMPILED = (STATIC, txt "compiled").
Proof.
  rewrite COMPILED_DIR_eq. apply (split_child STATIC (txt "compiled")).
  - apply STATIC_DIR_open.
  - cbn. rewrite !not_elem_of_cons. split_and!; try discriminate. apply not_elem_of_nil.
Qed.

Lemma makedirs_compiled_dir mode w w' :
  makedirs COMPILED mode w = (inr tt, w') ->
  exists m, nodes w' !! COMPILED = Some (Dir m).
Proof.
  unfold makedirs. destruct (length COMPILED) as [|n] eqn:L.
  - rewrite COMPILED_DIR_eq, length_app in L. cbn in L. lia.
  - cbn [makedirs_fuel]. rewrite split_compiled.
    rewrite (bool_decide_eq_false_2 (txt "compiled" = [])) by done.
    unfold bind at 1. unfold exists_ at 1.
    destruct (bool_decide (STATIC <> []) && bool_decide (txt "compiled" <> []) && _);
      [|apply makedirs_leaf_dir].
    unfold bind.
    rewrite (bool_decide_eq_false_2 (txt "compiled" = txt ".")) by done.
    destruct (makedirs_fuel n STATIC (octal 7 7 7) w) as [[e|[]] w1];
      [destruct e; try done|]; apply makedirs_leaf_dir.
Qed.

(** The output directory is there and nothing is done, or it is not and
    its creation is attempted after the notice is logged. *)
Lemma ensure_compiled_dir_inv w r w' :
  ensure_compiled_dir root w = (r, w') ->
  (exists m, nodes w !! COMPILED = Some (Dir m) /\ r = inr tt /\ w' = w) \/
  ((forall m, nodes w !! COMPILED <> Some (Dir m)) /\
   exists evs,
     trace w' = trace w ++ missing_dir_notice root :: evs /\ Forall is_mkdir evs /\
     (forall k,
        nodes w' !! k = nodes w !! k \/
        (nodes w !! k = None /\
         exists m, makes COMPILED (octal 7 0 0) k m /\
                   nodes w' !! k = Some (Dir m) /\ Mkdir k m ∈ evs)) /\
     (r = inr tt ->
      nodes w' !! COMPILED = Some (Dir (octal 7 0 0)) /\
      Mkdir COMPILED (octal 7 0 0) ∈ evs)).
Proof.
  unfold ensure_compiled_dir, bind, isdir, emit.
  destruct (nodes w !! COMPILED) as [[m d|m]|] eqn:E; cbn [negb].
  2:{ intros [= <- <-]. left. eauto. }
  all: set (w1 := World (nodes w) _);
    destruct (makedirs COMPILED (octal 7 0 0) w1) as [r1 w2] eqn:E1;
    assert (H : (r1, w2) = (r, w') -> r1 = r /\ w2 = w') by (by intros [= <- <-]);
    intros Hr; assert (Hr' : (r1, w2) = (r, w')) by (by destruct r1 as [?|[]]);
    clear Hr; destruct (H Hr') as [<- <-]; clear H Hr';
    right; (split; [congruence|]);
    pose proof (makedirs_fuel_added _ _ _ _ _ _ E1) as (evs & T & Fe & N);
    exists evs; subst w1; cbn [trace nodes] in *;
    (split_and!; [by rewrite T, <- app_assoc | done | done |]);
    intros ->; destruct (makedirs_compiled_dir _ _ _ E1) as [m' Em'];
    destruct (N COMPILED) as [E2|(_ & m'' & [[_ ->]|L] & E2 & I2)];
    [congruence | split; congruence | lia].
Qed.

(** The pass, phase by phase. *)
Lemma compile_html_phases w :
  compile_html root w =
  match read_file (join (TEMPLATES_DIR root) (txt "master.html")) w with
  | (inl e, w1) => (inl e, w1)
  | (inr template, w1) =>
      match stamp_scripts root template w1 with
      | (inl e, w2) => (inl e, w2)
      | (inr stamped, w2) =>
          match ensure_compiled_dir root w2 with
          | (inl e, w3) => (inl e, w3)
          | (inr _, w3) => compile_pages root stamped w3
          end
      end
  end.
Proof. reflexivity. Qed.

Lemma compile_pages_inv tpl w r w' :
  compile_pages root tpl w = (r, w') ->
  (exists evs,
     trace w' = trace w ++ evs /\ Forall is_page_event evs /\
     forall k n, nodes w' !! k = Some n ->
       nodes w !! k = Some n \/ exists m d, n = File m d /\ WriteFile k d ∈ evs) /\
  (forall k, (forall f, (sep ∉ f) -> ends_with (txt ".html") f = true ->
                        k <> COMPILED ++ sep :: f) ->
             nodes w' !! k = nodes w !! k) /\
  (r = inr tt ->
   (exists m, nodes w !! STATIC = Some (Dir m) /\ can_read m = true) /\
   forall f, f <> [] -> sep ∉ f -> ends_with (txt ".html") f = true ->
     is_Some (nodes w !! (STATIC ++ sep :: f)) ->
     exists m d m',
       nodes w !! (STATIC ++ sep :: f) = Some (File m d) /\ can_read m = true /\
       nodes w' !! (COMPILED ++ sep :: f) = Some (File m' (page_output tpl d)) /\
       can_write m' = true).
Proof.
  unfold compile_pages, bind.
  destruct (listdir STATIC w) as [[e|names] w1] eqn:E.
  - apply listdir_static_inv in E as [-> _]. intros [= <- <-].
    split_and!; [|done|done].
    exists []. rewrite app_nil_r. split_and!; [done | done | by left].
  - apply listdir_static_inv in E as [-> [Hd Hn]]. intros H.
    assert (Hsep : Forall (fun f => sep ∉ f)
                     (List.filter (fun f => ends_with (txt ".html") f) names)).
    { apply Forall_forall. intros f Hin. apply list_elem_of_In, filter_In in Hin as [Hin _].
      apply list_elem_of_In, Hn in Hin. tauto. }
    apply pages_loop in H as (Ht & Frame & Ok); [|done].
    split_and!; [done | |].
    + intros k Hk. apply Frame. intros f Hin. apply Hk.
      * by eapply Forall_forall in Hsep.
      * by apply list_elem_of_In, filter_In in Hin as [_ Hin].
    + intros ->. split; [done|]. intros f Hne Hs He Hex. apply (Ok eq_refl).
      apply list_elem_of_In, filter_In. split; [|done].
      apply list_elem_of_In, Hn. done.
Qed.


End Phases.

(** ** Fatal failures and the order of effects *)
Section Fatal.
Import Str StrFacts Path PathFacts Re ReFacts Os OsFacts.
Variable root : text.

Local Abbreviation STATIC := (STATIC_DIR root).
Local Abbreviation COMPILED := (COMPILED_DIR root).
Local Abbreviation TEMPLATE := (join (TEMPLATES_DIR root) (txt "master.html")).



End Fatal.


(** The output directory cannot be created when the static root does not
    let its owner write: the error of the attempt comes out, after the
    notice, and the fragment is not compiled. *)
Example output_dir_uncreatable :
  let w := Sample.world_of
             [("/srv", Dir Sample.rwx); ("/srv/htdocs", Dir (octal 5 5 5));
              ("/srv/htdocs/templates", Dir Sample.rwx);
              ("/srv/htdocs/templates/master.html", File Sample.rw (txt "{contents}"));
              ("/srv/htdocs/index.html", File Sample.rw (txt "<p>hi</p>"))] in
  compile_html Sample.root w
  = (inl PermissionError, World (nodes w) [missing_dir_notice Sample.root]).
Proof. vm_compute. reflexivity. Qed.



(** ** The compiled pages *)
Section Output.
Import Str StrFacts Path PathFacts Re ReFacts Os OsFacts.
Variable root : text.

Local Abbreviation STATIC := (STATIC_DIR root).
Local Abbreviation COMPILED := (COMPILED_DIR root).
Local Abbreviation TEMPLATE := (join (TEMPLATES_DIR root) (txt "master.html")).

Lemma ends_js_not_html (x : text) :
  ends_with (txt ".js") x = true -> ends_with (txt ".html") x = true -> False.
Proof.
  unfold ends_with. destruct (rev x) as [|a l]; [done|].
  cbn [txt list_ascii_of_string rev app starts_with].
  destruct (Ascii.eqb_spec "s" a) as [<-|]; [|done]. done.
Qed.


Lemma lstrip_app (c : ascii) (u v : text) :
  lstrip c (u ++ v) = match lstrip c u with [] => lstrip c v | _ => lstrip c u ++ v end.
Proof.
  induction u as [|a u IH]; [done|]. cbn [app lstrip].
  destruct (Ascii.eqb a c); [apply IH | done].
Qed.

(** The script name of a matched reference still ends in .js. *)
Lemma script_name_ends_js (T g1 g2 : text) :
  (g1, g2) ∈ finditer T -> ends_with (txt ".js") (lstrip sep g2) = true.
Proof.
  intros H. apply finditer_sound in H as [i H].
  destruct (match_at_sound _ _ _ H) as (c & b & -> & _).
  change (c :: b ++ txt ".js") with ((c :: b) ++ txt ".js").
  rewrite lstrip_app. destruct (lstrip sep (c :: b)); [reflexivity|].
  apply ends_with_app.
Qed.


Lemma script_ne_fragment (name f : text) :
  ends_with (txt ".js") name = true -> ends_with (txt ".html") f = true ->
  STATIC ++ sep :: name <> STATIC ++ sep :: f.
Proof.
  intros Hj Hh E. apply app_inv_head in E. injection E as ->.
  by apply (ends_js_not_html f).
Qed.

Lemma template_path_static : TEMPLATE = STATIC ++ sep :: txt "templates/master.html".
Proof. by rewrite template_path_eq. Qed.


(** The template is not one of the files directly under the static root. *)
Lemma template_ne_fragment (f : text) : sep ∉ f -> STATIC ++ sep :: f <> TEMPLATE.
Proof.
  rewrite template_path_static. intros Hf E. apply app_inv_head in E.
  injection E as ->. apply Hf.
  do 9 apply list_elem_of_further. apply list_elem_of_here.
Qed.

Lemma dot_not_in_compiled : "."%char ∉ txt "compiled".
Proof.
  cbn. intros H.
  repeat (apply elem_of_cons in H as [H|H]; [discriminate|]).
  by apply elem_of_nil in H.
Qed.

(** A fragment path is none of the directories that [makedirs] creates. *)
Lemma fragment_not_made (f : text) (m : Z) :
  ends_with (txt ".html") f = true ->
  ~ makes COMPILED (octal 7 0 0) (STATIC ++ sep :: f) m.
Proof.
  intros Hh. apply ends_with_inv in Hh as [u ->].
  assert (Hdot : "."%char ∈ u ++ txt ".html").
  { apply elem_of_app. right. apply list_elem_of_here. }
  rewrite COMPILED_DIR_eq. intros [[E _]|[Hp _]].
  - apply app_inv_head in E. injection E as E.
    apply dot_not_in_compiled. cbn in E |- *. by rewrite <- E.
  - apply prefix_app_inv in Hp. apply prefix_cons_inv_2 in Hp.
    destruct Hp as [k E]. apply dot_not_in_compiled.
    cbn in E |- *. rewrite E. apply elem_of_app. by left.
Qed.

Lemma dirs_added_same_file P w w' p : dirs_added P w w' -> same_file w w' p.
Proof.
  intros (evs & _ & _ & N) m d.
  destruct (N p) as [->|(E & m' & _ & E' & _)]; [done|].
  rewrite E, E'. split; discriminate.
Qed.

(** What a successful run leaves: the output directory, the stamped
    template merged with every fragment, and every other path as it was
    or, for an ancestor of the output directory, created. *)
Lemma compile_html_ok w w' :
  compile_html root w = (inr tt, w') ->
  exists tm td stamped,
    nodes w !! TEMPLATE = Some (File tm td) /\ can_read tm = true /\
    stamp_scripts root (universal_newlines false td) w = (inr stamped, w) /\
    (exists m, nodes w' !! COMPILED = Some (Dir m)) /\
    (exists m, nodes w' !! STATIC = Some (Dir m) /\ can_read m = true) /\
    (forall k, (forall f, (sep ∉ f) -> ends_with (txt ".html") f = true ->
                          k <> COMPILED ++ sep :: f) ->
       nodes w' !! k = nodes w !! k \/
       (nodes w !! k = None /\ exists m, makes COMPILED (octal 7 0 0) k m /\
                                         nodes w' !! k = Some (Dir m))) /\
    (forall f, f <> [] -> sep ∉ f -> ends_with (txt ".html") f = true ->
       is_Some (nodes w !! (STATIC ++ sep :: f)) ->
       exists m d m',
         nodes w !! (STATIC ++ sep :: f) = Some (File m d) /\ can_read m = true /\
         nodes w' !! (COMPILED ++ sep :: f) = Some (File m' (page_output stamped d)) /\
         can_write m' = true).
Proof.
  rewrite compile_html_phases.
  destruct (read_file TEMPLATE w) as [[e|template] w1] eqn:E1; [done|].
  apply read_file_inv in E1 as [-> (tm & td & Et & Rt & ->)].
  destruct (stamp_scripts root _ w) as [[e|stamped] w2] eqn:E2; [done|].
  pose proof (stamp_scripts_world _ _ _ _ _ E2) as ->.
  destruct (ensure_compiled_dir root w) as [[e|[]] w3] eqn:E3; [done|].
  intros E4. exists tm, td, stamped. split_and!; [done | done | done | | | |].
  all: pose proof (compile_pages_inv root stamped w3 _ w' E4) as (_ & Frame & Ok);
    destruct (Ok eq_refl) as [Hstatic Hpages]; clear Ok.
  all: assert (N : forall k, nodes w3 !! k = nodes w !! k \/
                  (nodes w !! k = None /\ exists m, makes COMPILED (octal 7 0 0) k m /\
                     nodes w3 !! k = Some (Dir m)));
    [apply ensure_compiled_dir_inv in E3
       as [(m & _ & _ & ->)|(_ & evs & _ & _ & N & _)]; [by left|];
     intros k; destruct (N k) as [?|(? & m & ? & ? & _)]; [by left | right; eauto]|].
  - rewrite Frame by (intros f _ _; apply compiled_ne_child).
    apply ensure_compiled_dir_inv in E3 as [(m & Em & _ & ->)|(_ & evs & _ & _ & _ & Hok)];
      [eauto|]. destruct (Hok eq_refl) as [-> _]. eauto.
  - rewrite Frame by (intros f _ _; apply static_ne_compiled_child). done.
  - intros k Hk. rewrite Frame by done. apply N.
  - intros f Hne Hs Hh Hex.
    assert (E : nodes w3 !! (STATIC ++ sep :: f) = nodes w !! (STATIC ++ sep :: f)).
    { destruct (N (STATIC ++ sep :: f)) as [?|(_ & m & Hm & _)]; [done|].
      by apply fragment_not_made in Hm. }
    rewrite <- E in Hex |- *. by apply Hpages.
Qed.




(** The stamped template depends on the world through the script files
    only. *)
Lemma stamp_scripts_same T w1 w2 s1 s2 :
  (forall g1 g2, (g1, g2) ∈ finditer T ->
     same_file w1 w2 (STATIC ++ sep :: lstrip sep g2)) ->
  stamp_scripts root T w1 = (inr s1, w1) -> stamp_scripts root T w2 = (inr s2, w2) ->
  s1 = s2.
Proof.
  intros H E1 E2. pose proof (stamp_loop_ext root (finditer T) T w1 w2 H) as E.
  unfold stamp_scripts in E1, E2. rewrite E1, E2 in E. by injection E.
Qed.

(** C5, as amended. After a successful run, for every file directly in
    the static root whose name ends in .html (the template is not one of
    them) the file of the same name in the output directory holds the
    stamped template with every occurrence of the placeholder replaced by
    the text of the fragment as a text-mode read gives it, that is with a
    carriage return, alone or before a line feed, turned into a line feed;
    whatever was there before is overwritten. The page of one fragment
    does not depend on the content of another. *)
Theorem compiled_page_merges_template_and_fragment (w w' : world) :
  compile_html root w = (inr tt, w') ->
  exists tm td stamped,
    nodes w !! TEMPLATE = Some (File tm td) /\
    stamp_scripts root (universal_newlines false td) w = (inr stamped, w) /\
    (forall f, f <> [] -> sep ∉ f -> ends_with (txt ".html") f = true ->
       is_Some (nodes w !! (STATIC ++ sep :: f)) ->
       STATIC ++ sep :: f <> TEMPLATE /\
       exists m d m',
         nodes w !! (STATIC ++ sep :: f) = Some (File m d) /\
         nodes w' !! (COMPILED ++ sep :: f)
           = Some (File m' (replace (txt "{contents}") (universal_newlines false d) stamped))) /\
    (forall f w2 w2',
       sep ∉ f -> ends_with (txt ".html") f = true ->
       (forall k, k <> STATIC ++ sep :: f -> nodes w2 !! k = nodes w !! k) ->
       compile_html root w2 = (inr tt, w2') ->
       forall g, g <> [] -> sep ∉ g -> ends_with (txt ".html") g = true -> g <> f ->
         is_Some (nodes w !! (STATIC ++ sep :: g)) ->
         exists m m2 out,
           nodes w' !! (COMPILED ++ sep :: g) = Some (File m out) /\
           nodes w2' !! (COMPILED ++ sep :: g) = Some (File m2 out)).
Proof.
  intros Hrun.
  destruct (compile_html_ok w w' Hrun)
    as (tm & td & stamped & Et & Rt & Es & _ & _ & _ & Pages).
  exists tm, td, stamped. split_and!; [done | done | |].
  - intros f Hne Hs Hh Hex. split; [by apply template_ne_fragment|].
    destruct (Pages f Hne Hs Hh Hex) as (m & d & m' & ? & ? & ? & ?). eauto.
  - intros f w2 w2' Hf Hfh Hsame Hrun2 g Hne Hg Hgh Hgf Hex.
    destruct (compile_html_ok w2 w2' Hrun2)
      as (tm2 & td2 & stamped2 & Et2 & _ & Es2 & _ & _ & _ & Pages2).
    rewrite Hsame in Et2 by (by apply not_eq_sym, template_ne_fragment).
    assert (td2 = td) as -> by congruence.
    assert (stamped = stamped2) as <-.
    { apply (stamp_scripts_same _ w w2 _ _) with (2 := Es) (3 := Es2).
      intros g1 g2 Hin m d. rewrite Hsame; [done|].
      apply script_ne_fragment; [|done]. by eapply script_name_ends_js. }
    assert (Eg : nodes w2 !! (STATIC ++ sep :: g) = nodes w !! (STATIC ++ sep :: g)).
    { apply Hsame. intros E. apply app_inv_head in E. by injection E. }
    destruct (Pages g Hne Hg Hgh Hex) as (m & d & m' & E1 & _ & E1' & _).
    destruct (Pages2 g Hne Hg Hgh) as (m2 & d2 & m2' & E2 & _ & E2' & _);
      [by rewrite Eg|].
    assert (d2 = d) as -> by congruence. eauto.
Qed.

End Output.


Lemma compiled_page_witness :
  let T := Sample.script_tag "app.js" ++ txt "{contents}" in
  let w := Sample.portal T [("/srv/htdocs/app.js", File Sample.rw (txt "abc"));
                            ("/srv/htdocs/index.html", File Sample.rw (txt "<p>hi</p>"))] in
  let w1 := snd (compile_html Sample.root w) in
  compile_html Sample.root w = (inr tt, w1) /\
  exists tm td stamped,
    nodes w !! Path.join (TEMPLATES_DIR Sample.root) (txt "master.html")
      = Some (File tm td) /\
    stamp_scripts Sample.root (Os.universal_newlines false td) w = (inr stamped, w).
Proof.
  intros T w w1.
  assert (H : compile_html Sample.root w = (inr tt, w1)) by (vm_compute; reflexivity).
  split; [exact H|].
  destruct (compiled_page_merges_template_and_fragment Sample.root w w1 H)
    as (tm & td & stamped & H1 & H2 & _).
  exists tm, td, stamped. split; [exact H1 | exact H2].
Defined.

(** The claim C5 as the specification words it fails: a fragment whose
    bytes hold a carriage return before a line feed is merged with the
    line feed alone, so the page does not hold exactly the bytes of the
    fragment. *)
Lemma fragment_bytes_are_not_merged_verbatim :
  let T := txt "<body>{contents}</body>" in
  let d := txt "a" ++ [cr; nl] ++ txt "b" in
  let w := Sample.portal T [("/srv/htdocs/index.html", File Sample.rw d)] in
  exists w' m out,
    compile_html Sample.root w = (inr tt, w') /\
    stamp_scripts Sample.root T w = (inr T, w) /\
    nodes w' !! txt "/srv/htdocs/compiled/index.html" = Some (File m out) /\
    out = txt "<body>a" ++ [nl] ++ txt "b</body>" /\
    out <> Str.replace (txt "{contents}") d T.
Proof.
  intros T d w. eexists _, _, _. split_and!.
  - vm_compute. reflexivity.
  - vm_compute. reflexivity.
  - vm_compute. reflexivity.
  - vm_compute. reflexivity.
  - vm_compute. discriminate.
Qed.

(** ** When the pass succeeds *)
Section Success.
Import Str StrFacts Path PathFacts Re ReFacts Os OsFacts.
Variable root : text.

Local Abbreviation STATIC := (STATIC_DIR root).
Local Abbreviation COMPILED := (COMPILED_DIR root).
Local Abbreviation TEMPLATE := (join (TEMPLATES_DIR root) (txt "master.html")).

(** The stamping loop raises only for a script that is there and cannot
    be read. *)
Lemma stamp_loop_succeeds (ms : list (text * text)) (tpl : text) (w : world) :
  (forall m mode d, m ∈ ms ->
     nodes w !! script_path root m = Some (File mode d) -> can_read mode = true) ->
  exists stamped, for_fold ms (stamp_script root) tpl w = (inr stamped, w).
Proof.
  revert tpl. induction ms as [|[g1 g2] ms IH]; intros tpl Hr; [by exists tpl|].
  cbn [for_fold]. unfold bind.
  assert (Hstep : exists t, stamp_script root tpl (g1, g2) w = (inr t, w)).
  { destruct (nodes w !! (STATIC ++ sep :: lstrip sep g2)) as [[mode d|mode]|] eqn:E.
    - eexists. apply (stamp_script_file root tpl g1 g2 w mode d E).
      apply (Hr (g1, g2) mode d); [by left|].
      unfold script_path. cbn [snd]. by rewrite script_path_eq.
    - exists tpl. apply stamp_script_missing. rewrite E. congruence.
    - exists tpl. apply stamp_script_missing. rewrite E. congruence. }
  destruct Hstep as [t ->]. apply IH.
  intros m mode d Hin. apply Hr. by right.
Qed.

Lemma compile_page_succeeds tpl f n t cm m d :
  sep ∉ f ->
  n !! COMPILED = Some (Dir cm) -> can_write cm = true -> can_search cm = true ->
  n !! (STATIC ++ sep :: f) = Some (File m d) -> can_read m = true ->
  (n !! (COMPILED ++ sep :: f) = None \/
   exists m' d', n !! (COMPILED ++ sep :: f) = Some (File m' d') /\ can_write m' = true) ->
  exists m' t',
    can_write m' = true /\
    compile_page root tpl f (World n t)
    = (inr tt, World (<[COMPILED ++ sep :: f := File m' (page_output tpl d)]> n) t').
Proof.
  intros Hf Ec Wc Sc E R Hout. pose proof (no_sep_not_starts f Hf) as Hs.
  unfold compile_page, bind, emit.
  rewrite (static_join root f Hs), (join_open (COMPILED_DIR root) f (COMPILED_DIR_open root) Hs).
  cbn [nodes trace]. unfold read_file, bind.
  rewrite (read_bytes_file _ _ m d) by done. unfold ret, write_file. cbn [nodes trace].
  destruct Hout as [->|(m' & d' & -> & W)].
  - unfold check_parent. cbn [nodes].
    rewrite (split_child COMPILED f (COMPILED_DIR_open root) Hf). cbn [fst].
    rewrite Ec, Wc, Sc. cbn [andb]. exists (octal 6 6 6). eauto.
  - rewrite W. eauto.
Qed.

Lemma pages_succeed names tpl n t cm :
  n !! COMPILED = Some (Dir cm) -> can_write cm = true -> can_search cm = true ->
  Forall (fun f => (sep ∉ f) /\
            (exists m d, n !! (STATIC ++ sep :: f) = Some (File m d) /\ can_read m = true) /\
            (n !! (COMPILED ++ sep :: f) = None \/
             exists m' d', n !! (COMPILED ++ sep :: f) = Some (File m' d') /\
                           can_write m' = true)) names ->
  exists w', for_each names (compile_page root tpl) (World n t) = (inr tt, w').
Proof.
  intros Ec Wc Sc H. revert n t Ec H.
  induction names as [|f names IH]; intros n t Ec H; [by eexists|].
  apply Forall_cons in H as [(Hf & (m & d & E & R) & Hout) H].
  cbn [for_each]. unfold bind.
  destruct (compile_page_succeeds tpl f n t cm m d Hf Ec Wc Sc E R Hout)
    as (m' & t' & W' & ->).
  apply IH.
  - rewrite lookup_insert_ne; [done|]. apply not_eq_sym, compiled_ne_child.
  - eapply Forall_impl; [exact H|]. cbn beta.
    intros f' (Hf' & (m1 & d1 & E1 & R1) & Hout'). split_and!; [done | |].
    + exists m1, d1. split; [|done].
      rewrite lookup_insert_ne; [done|]. by apply not_eq_sym, static_ne_compiled.
    + destruct (decide (f' = f)) as [->|Hne].
      * right. rewrite lookup_insert_eq. eauto.
      * rewrite lookup_insert_ne; [done|].
        intros Heq. apply compiled_child_inj in Heq. congruence.
Qed.

Lemma makedirs_compiled_succeeds n t sm :
  n !! COMPILED = None ->
  n !! STATIC = Some (Dir sm) -> can_write sm = true -> can_search sm = true ->
  makedirs COMPILED (octal 7 0 0) (World n t)
  = (inr tt, World (<[COMPILED := Dir (octal 7 0 0)]> n)
                   (t ++ [Mkdir COMPILED (octal 7 0 0)])).
Proof.
  intros Ec Es Ws Ss. unfold makedirs.
  destruct (length COMPILED) as [|k] eqn:L.
  { rewrite COMPILED_DIR_eq, length_app in L. cbn in L. lia. }
  cbn [makedirs_fuel]. rewrite (split_compiled root).
  rewrite (bool_decide_eq_false_2 (txt "compiled" = [])) by done.
  unfold bind at 1. unfold exists_ at 1. cbn [nodes]. rewrite Es. cbn [negb].
  rewrite andb_false_r.
  unfold makedirs_leaf, mkdir, check_parent. cbn [nodes trace].
  rewrite Ec, (split_compiled root). cbn [fst]. by rewrite Es, Ws, Ss.
Qed.

(** In a world that is ready the pass returns without raising. *)
Lemma compile_html_succeeds (w : world) :
  ready root w -> exists w', compile_html root w = (inr tt, w').
Proof.
  intros ((tm & td & Et & Rt & Hscripts) & (sm & Es & Rs & Hdir) & Hfrag).
  rewrite compile_html_phases. unfold read_file at 1, bind at 1.
  rewrite (read_bytes_file TEMPLATE w tm td Et Rt). unfold ret at 1.
  destruct (stamp_loop_succeeds (finditer (universal_newlines false td))
              (universal_newlines false td) w Hscripts) as [stamped Hst].
  unfold stamp_scripts. rewrite Hst.
  assert (Hens : exists n3 t3 cm,
            ensure_compiled_dir root w = (inr tt, World n3 t3) /\
            n3 !! COMPILED = Some (Dir cm) /\ can_write cm = true /\ can_search cm = true /\
            forall k, k <> COMPILED -> n3 !! k = nodes w !! k).
  { destruct Hdir as [(cm & Ec & Wc & Sc)|(Ec & Ws & Ss)].
    - exists (nodes w), (trace w), cm. split_and!; try done.
      unfold ensure_compiled_dir, bind, isdir. rewrite Ec. by destruct w.
    - eexists _, _, (octal 7 0 0).
      unfold ensure_compiled_dir, bind, isdir, emit. rewrite Ec. cbn [negb].
      rewrite (makedirs_compiled_succeeds _ _ sm Ec Es Ws Ss).
      split_and!; [done | apply lookup_insert_eq | done | done |].
      intros k Hk. by apply lookup_insert_ne, not_eq_sym. }
  destruct Hens as (n3 & t3 & cm & -> & Ec3 & Wc3 & Sc3 & Hsame).
  unfold compile_pages, bind, listdir. cbn [nodes].
  assert (Hne : STATIC <> COMPILED).
  { rewrite COMPILED_DIR_eq. intros E. apply (f_equal length) in E.
    rewrite length_app in E. cbn in E. lia. }
  rewrite (Hsame STATIC Hne), Es, Rs.
  apply (pages_succeed _ stamped n3 t3 cm Ec3 Wc3 Sc3).
  apply Forall_forall. intros f Hin.
  apply list_elem_of_In, filter_In in Hin as [Hin Hh].
  apply list_elem_of_In, list_elem_of_omap in Hin as ([k v] & Hkv & Hc).
  cbn [fst] in Hc. apply child_name_static in Hc as (Hfne & Hf & ->).
  apply elem_of_map_to_list in Hkv.
  assert (Hk1 : STATIC ++ sep :: f <> COMPILED).
  { rewrite COMPILED_DIR_eq. intros E. apply app_inv_head in E. injection E as ->.
    by vm_compute in Hh. }
  assert (Hk2 : COMPILED ++ sep :: f <> COMPILED).
  { apply not_eq_sym, compiled_ne_child. }
  rewrite (Hsame _ Hk1) in Hkv |- *. rewrite (Hsame _ Hk2).
  destruct (Hfrag f v Hfne Hf Hh Hkv) as [(m & d & -> & R) Hout].
  split_and!; [done | eauto | done].
Qed.

End Success.

(** ** The integrity token *)
Module TokenValue.
Import Os.

(** The digest of the three bytes abc, as FIPS 180-4 gives it. *)
Example sri_abc :
  sri_of_bytes (txt "abc")
  = txt "sha384-ywB1P0WjXou1oD1pmsZQBycsMqsO3tFjGotgWkP/W+2AhgcroefMI1i67KE0yCWn".
Proof. vm_compute. reflexivity. Qed.

(** The token of a readable file is the literal sha384- followed by the
    base64 text of the SHA-384 digest of its bytes, and reading leaves the
    world as it was, so that a second call gives the same token. *)
Lemma file_to_sri_token (p : text) (w : world) (m : Z) (d : text) :
  nodes w !! p = Some (File m d) -> can_read m = true ->
  file_to_sri p w = (inr (txt "sha384-" ++ Base64.b64encode (Sha384.sha384 d)), w) /\
  file_to_sri p (snd (file_to_sri p w)) = file_to_sri p w.
Proof.
  intros E R. rewrite (file_to_sri_file p w m d E R). split; [done|].
  cbn [snd]. apply (file_to_sri_file p w m d E R).
Qed.

(** The token depends on the bytes only: two files with the same bytes,
    in whatever worlds and under whatever paths, get the same token. *)
Lemma file_to_sri_bytes_only (p1 p2 : text) (w1 w2 : world) (m1 m2 : Z) (d : text) :
  nodes w1 !! p1 = Some (File m1 d) -> can_read m1 = true ->
  nodes w2 !! p2 = Some (File m2 d) -> can_read m2 = true ->
  fst (file_to_sri p1 w1) = fst (file_to_sri p2 w2).
Proof.
  intros E1 R1 E2 R2.
  by rewrite (file_to_sri_file p1 w1 m1 d E1 R1), (file_to_sri_file p2 w2 m2 d E2 R2).
Qed.

End TokenValue.

(** One changed byte, one changed token, on an instance. *)
Example sri_abc_abd : sri_of_bytes (txt "abc") <> sri_of_bytes (txt "abd").
Proof. vm_compute. discriminate. Qed.

(** ** The shutdown hook *)
Module TasksFacts.
Import Tasks.

Lemma loop_turn_shutdown (a : app) : loop_turn (shutdown a) = loop_turn a.
Proof. reflexivity. Qed.


(** Had the hook cancelled the tasks of the set, none would run again. *)
Example cancelled_tasks_do_not_run :
  loop_turn (shutdown (cancel 2 (cancel 1 (cancel 0 (load_endpoints new_app))))) = [].
Proof. reflexivity. Qed.

End TasksFacts.

(** ** The layout of a template *)
Module LayoutFacts.
Import Str StrFacts Re ReFacts.










End LayoutFacts.

(** ** Reference texts and where they can start *)
Module RefFacts.
Import Str StrFacts Re ReFacts.











Lemma ref_starts_open body z : starts_with src_open (ref_text body ++ z) = true.
Proof. unfold ref_text. rewrite <- app_assoc. apply starts_with_app. Qed.

Lemma is_ref_starts_open g z : is_ref g -> starts_with src_open (g ++ z) = true.
Proof. intros (body & -> & _). apply ref_starts_open. Qed.








End RefFacts.

(** ** The characters of a token *)
Module TokenFacts.
Import Str StrFacts Re ReFacts RefFacts.












End TokenFacts.

(** ** The stamping loop *)
Section Stamping.
Import Str StrFacts Path PathFacts Re ReFacts Os OsFacts LayoutFacts RefFacts TokenFacts.
Variable root : text.

Local Abbreviation STATIC := (STATIC_DIR root).











End Stamping.

(** ** Which references are stamped *)
Section Stamped.
Import Str StrFacts Path PathFacts Re ReFacts Os OsFacts LayoutFacts RefFacts TokenFacts.
Variable root : text.






End Stamped.








(** C1, on the code. A script reference that occurs twice with a file
    that exists is matched twice, and each of the two replacements rewrites
    both occurrences: both come out the same, each followed by two
    integrity attributes with the same token, not by one. *)
Theorem repeated_reference_is_stamped_once_per_match :
  let T := StampSamples.same_script_twice in
  let w := StampSamples.with_app_js T in
  let stamped_tag :=
    txt "<script src=" ++ [dq] ++ txt "app.js" ++ [dq]
    ++ integrity_attr StampSamples.abc_token ++ integrity_attr StampSamples.abc_token
    ++ txt "></script>" in
  Re.finditer T = [(Re.src_open ++ txt "app.js" ++ [dq], txt "app.js");
                   (Re.src_open ++ txt "app.js" ++ [dq], txt "app.js")] /\
  file_to_sri (txt "/srv/htdocs/app.js") w = (inr StampSamples.abc_token, w) /\
  stamp_scripts Sample.root T w
  = (inr (stamped_tag ++ stamped_tag ++ txt "{contents}"), w).
Proof. intros T w stamped_tag. split_and!; vm_compute; reflexivity. Qed.

(** ** A sample site *)
Module SiteFacts.
Import Str Path Re Os StampSamples.

Lemma site_scripts_readable : scripts_readable Sample.root site two_scripts.
Proof.
  intros m mode d Hin.
  assert (E : finditer two_scripts
              = [(src_open ++ txt "app.js" ++ [dq], txt "app.js");
                 (src_open ++ txt "/js/missing.js" ++ [dq], txt "/js/missing.js")])
    by (vm_compute; reflexivity).
  rewrite E in Hin. clear E.
  apply elem_of_cons in Hin as [->|Hin]; [|apply elem_of_cons in Hin as [->|Hin]].
  - vm_compute. intros [= <- _]. reflexivity.
  - vm_compute. discriminate.
  - by apply elem_of_nil in Hin.
Qed.

(** The sample site is ready, so the pass succeeds on it. *)
Lemma site_ready : ready Sample.root site.
Proof.
  split_and!.
  - exists Sample.rw, two_scripts. split_and!; [by vm_compute | done |].
    change (universal_newlines false two_scripts) with two_scripts.
    apply site_scripts_readable.
  - exists Sample.rwx. split_and!; [by vm_compute | done |].
    right. split_and!; [by vm_compute | done | done].
  - intros f n Hne Hf Hh Hn.
    apply elem_of_map_to_list in Hn. vm_compute in Hn.
    repeat (apply elem_of_cons in Hn as [Hn|Hn];
            [simplify_eq;
             first [ discriminate Hh
                   | by destruct Hf; apply (bool_decide_unpack _)
                   | split; [eauto | left; by vm_compute] ]|]).
    by apply elem_of_nil in Hn.
Qed.

(** On the sample site the pass returns. *)
Example site_compiles : exists w1, compile_html Sample.root site = (inr tt, w1).
Proof. exact (compile_html_succeeds Sample.root site site_ready). Qed.

End SiteFacts.
